(** * textures/split.py: splitting a JSON object into shard files

    A shallow embedding of [split_json_file] and the properties of its
    output files.

    What is modelled, and how:
    - Python [int] is [Z]; [len] returns a [Z].
    - [total_objects / objects_per_file] is Python's true division of two
      [int]s: the quotient correctly rounded to an IEEE binary64 [float]
      (round half to even), [ZeroDivisionError] on a zero divisor,
      [OverflowError] when the rounded quotient does not fit, and a silent
      underflow to zero.  [math.ceil] then turns the [float] into an [int].
    - A Python [dict] is an association list in insertion order; the input
      [data] is the result of [json.load], so its keys are unique.
    - [random.choice] draws its index from an explicit argument [rng].
    - The output files are a log of writes in program order; every
      [open(path, 'w')] may fail with [OSError], decided by the world's
      [can_write].  Paths are joined the POSIX way.
    - The encoding of payload values and of key strings belongs to the
      [json] library and is a parameter ([json_encoder]).
    - An [int] is turned into text as CPython does it from version 3.11 on:
      with more than 4300 decimal digits it is refused with [ValueError].
      This is how the message of line 36, which shows the chunk size, can
      end a run.
    The first part follows the function from the loaded [data] on, with the
    files it writes; reading the input file, creating the output directory
    and the lines on the console come in the second part. *)

From Stdlib Require Import ZArith Lia Ascii.
From stdpp Require Import base list strings pretty gmap.

Open Scope Z_scope.

(** ** Exceptions *)

Inductive exn :=
  | ZeroDivisionError
  | OverflowError
  | IndexError
  | KeyError (key : string)
  | OSError (path : string)
  | ValueError.

(** ** [int / int] and [math.ceil] *)

(** A finite binary64 value [mant * 2 ^ expo]. *)
Record float := mkfloat { mant : Z; expo : Z }.

(** [2 ^ k] for [k >= 0], and [1] otherwise: the factor that clears a
    power of two from one side of a comparison of quotients. *)
Definition pow2 (k : Z) : Z := 2 ^ Z.max 0 k.

(** [floor (log2 (n / d))] for positive [n] and [d]. *)
Definition floor_log2_quot (n d : Z) : Z :=
  let g := Z.log2 n - Z.log2 d in
  if d * pow2 g <=? n * pow2 (- g) then g else g - 1.

(** Exponent of the last place of the quotient: 53 significant bits, and
    never below the subnormal exponent [-1074]. *)
Definition ulp_exponent (n d : Z) : Z :=
  Z.max (floor_log2_quot n d - 52) (-1074).

(** [n / d] rounded to the nearest integer, ties to even. *)
Definition div_half_even (n d : Z) : Z :=
  let q := n / d in
  let r := n mod d in
  if 2 * r <? d then q
  else if d <? 2 * r then q + 1
  else if Z.even q then q else q + 1.

(** [a / b] on Python [int]s. *)
Definition int_true_divide (a b : Z) : exn + float :=
  if b =? 0 then inl ZeroDivisionError
  else if a =? 0 then inr (mkfloat 0 0)
  else
    let n := Z.abs a in
    let d := Z.abs b in
    let e := ulp_exponent n d in
    let m := div_half_even (n * pow2 (- e)) (d * pow2 e) in
    if 2 ^ 1024 <=? m * pow2 e then inl OverflowError
    else inr (mkfloat (Z.sgn a * Z.sgn b * m) e).

(** [math.ceil] on a finite [float]. *)
Definition math_ceil (x : float) : Z :=
  if 0 <=? expo x then mant x * 2 ^ expo x
  else - ((- mant x) / 2 ^ (- expo x)).

(** The exact ceiling of [a / b], for comparison. *)
Definition ceil_div (a b : Z) : Z := (a + b - 1) / b.

(** [num_files = math.ceil(total_objects / objects_per_file)] *)
Definition compute_num_files (total_objects objects_per_file : Z) : exn + Z :=
  match int_true_divide total_objects objects_per_file with
  | inl err => inl err
  | inr q => inr (math_ceil q)
  end.

(** ** [int] to text *)

(** [sys.get_int_max_str_digits()], as it is unless configured otherwise. *)
Definition int_max_str_digits : Z := 4300.

(** The number of decimal digits of [n], sign apart. *)
Definition num_digits (n : Z) : Z := Z.of_nat (String.length (pretty (Z.abs n))).

(** The [int]s that [str] accepts. *)
Definition printable (n : Z) : Prop := num_digits n <= int_max_str_digits.

(** The conversions of an f-string that shows [ints]: the first [int] with
    too many digits raises [ValueError]. *)
Definition format_ints (ints : list Z) : exn + () :=
  if forallb (λ n, num_digits n <=? int_max_str_digits) ints then inr ()
  else inl ValueError.

(** ** Python containers *)

(** A [dict] with [str] keys, in insertion order. *)
Abbreviation dict V := (list (string * V)).

Definition keys {V} (d : dict V) : list string := d.*1.

Definition len {A} (l : list A) : Z := Z.of_nat (length l).

Fixpoint dict_get {V} (d : dict V) (k : string) : option V :=
  match d with
  | [] => None
  | (k', v) :: d' => if decide (k' = k) then Some v else dict_get d' k
  end.

(** [d[k]] *)
Definition dict_getitem {V} (d : dict V) (k : string) : exn + V :=
  match dict_get d k with
  | Some v => inr v
  | None => inl (KeyError k)
  end.

(** [d[k] = v]: an existing key keeps its position, a new key goes last. *)
Fixpoint dict_set {V} (d : dict V) (k : string) (v : V) : dict V :=
  match d with
  | [] => [(k, v)]
  | (k', v') :: d' =>
      if decide (k' = k) then (k', v) :: d' else (k', v') :: dict_set d' k v
  end.

(** The [dict] that [json.load] builds from the members of an object, a
    repeated name keeping its first position and its last value. *)
Definition dict_of_pairs {V} (members : list (string * V)) : dict V :=
  foldl (λ d kv, dict_set d kv.1 kv.2) [] members.

(** A slice bound clamped as by [slice.indices]. *)
Definition slice_index (n i : Z) : Z :=
  if i <? 0 then Z.max 0 (n + i) else Z.min i n.

(** [l[start:stop]] *)
Definition py_slice {A} (l : list A) (start stop : Z) : list A :=
  let lo := slice_index (len l) start in
  let hi := slice_index (len l) stop in
  take (Z.to_nat (hi - lo)) (drop (Z.to_nat lo) l).

(** [range(n)] *)
Definition range (n : Z) : list Z := seqZ 0 n.

(** [{key: data[key] for key in ks}], filling [acc]. *)
Fixpoint dict_comprehension {V} (data : dict V) (ks : list string) (acc : dict V)
    : exn + dict V :=
  match ks with
  | [] => inr acc
  | key :: ks' =>
      match dict_getitem data key with
      | inl err => inl err
      | inr v => dict_comprehension data ks' (dict_set acc key v)
      end
  end.

(** [random.choice(seq)], the generator's draw being [rng]. *)
Definition randbelow (rng n : nat) : nat := (rng mod n)%nat.

Definition random_choice {A} (rng : nat) (seq : list A) : exn + A :=
  if decide (length seq = 0%nat) then inl IndexError
  else match seq !! randbelow rng (length seq) with
       | Some x => inr x
       | None => inl IndexError
       end.

(** ** Paths *)

Fixpoint ends_with_sep (s : string) : bool :=
  match s with
  | EmptyString => false
  | String c EmptyString => bool_decide (c = "/"%char)
  | String _ s' => ends_with_sep s'
  end.

Definition starts_with_sep (s : string) : bool :=
  match s with
  | String c _ => bool_decide (c = "/"%char)
  | EmptyString => false
  end.

(** [os.path.join(a, b)] of [posixpath]. *)
Definition os_path_join (a b : string) : string :=
  if starts_with_sep b || bool_decide (a = EmptyString) then b
  else if ends_with_sep a then a +:+ b
  else a +:+ "/" +:+ b.

Definition doc_name : string := "doc.json".
Definition index_name : string := "geometry_index.json".
(** [f"geometry_{file_num}.json"] *)
Definition shard_name (file_num : Z) : string :=
  "geometry_" +:+ pretty file_num +:+ ".json".

(** ** Files *)

(** What one [json.dump] call is given. *)
Inductive document (V : Type) :=
  | Indented (d : dict V)          (* json.dump(d, f, indent=2) *)
  | Minified (d : dict V)          (* json.dump(d, f, separators=(',', ':')) *)
  | MinifiedIndex (d : dict Z).    (* the same call, on the index *)
Arguments Indented {V} d.
Arguments Minified {V} d.
Arguments MinifiedIndex {V} d.

(** The part of the [json] encoder that depends on the payload. *)
Record json_encoder (V : Type) := {
  encode_key : string → string;
  encode_value : V → string;            (* with separators (',', ':') *)
  encode_value_indented : V → string    (* with indent=2, one level deep *)
}.
Arguments encode_key {V} _ _.
Arguments encode_value {V} _ _.
Arguments encode_value_indented {V} _ _.

Definition newline : string := String (ascii_of_nat 10) EmptyString.
Definition dquote : string := String (ascii_of_nat 34) EmptyString.

(** [sep.join(items)] *)
Definition str_join (sep : string) (items : list string) : string :=
  match items with
  | [] => EmptyString
  | x :: xs => foldl (λ acc y, acc +:+ sep +:+ y) x xs
  end.

Definition dumps_minified {A} (enc_key : string → string) (enc : A → string)
    (d : dict A) : string :=
  "{" +:+ str_join "," ((λ kv, enc_key kv.1 +:+ ":" +:+ enc kv.2) <$> d) +:+ "}".

Definition dumps_indented {A} (enc_key : string → string) (enc : A → string)
    (d : dict A) : string :=
  match d with
  | [] => "{}"
  | _ => "{" +:+ newline +:+ "  "
         +:+ str_join ("," +:+ newline +:+ "  ")
               ((λ kv, enc_key kv.1 +:+ ": " +:+ enc kv.2) <$> d)
         +:+ newline +:+ "}"
  end.

(** The bytes of a file. *)
Definition render {V} (E : json_encoder V) (doc : document V) : string :=
  match doc with
  | Indented d => dumps_indented (encode_key E) (encode_value_indented E) d
  | Minified d => dumps_minified (encode_key E) (encode_value E) d
  | MinifiedIndex d => dumps_minified (encode_key E) pretty d
  end.

(** The world: which paths can be opened for writing, and the files written
    so far, oldest first. *)
Record world (V : Type) := mkworld {
  can_write : string → bool;
  written : list (string * document V)
}.
Arguments mkworld {V} _ _.
Arguments can_write {V} _ _.
Arguments written {V} _.

(** The file system after a log of writes. *)
Definition fs_apply {V} (E : json_encoder V) (fs : gmap string string)
    (log : list (string * document V)) : gmap string string :=
  foldl (λ fs w, <[w.1 := render E w.2]> fs) fs log.

(** ** Computations that write files and may raise *)

Definition io (V A : Type) : Type := world V → world V * (exn + A).

Global Instance io_ret {V} : MRet (io V) := λ A x w, (w, inr x).
Global Instance io_bind {V} : MBind (io V) := λ A B f m w,
  match m w with
  | (w', inl err) => (w', inl err)
  | (w', inr x) => f x w'
  end.

(** A pure step that may raise. *)
Definition lift {V A} (r : exn + A) : io V A := λ w, (w, r).

(** [with open(path, 'w') as f: json.dump(doc, f, ...)] *)
Definition json_dump_file {V} (path : string) (doc : document V) : io V () :=
  λ w, if can_write w path
       then (mkworld (can_write w) (written w ++ [(path, doc)]), inr ())
       else (w, inl (OSError path)).

(** ** The program *)

Section split.
Context {V : Type}.
Variables (data : dict V) (output_dir : string) (objects_per_file : Z).

(** The keys of one chunk (lines 53 to 57). *)
Definition chunk_keys_of (file_num : Z) : list string :=
  let total_objects := len data in
  let start_idx := file_num * objects_per_file in
  let end_idx := Z.min (start_idx + objects_per_file) total_objects in
  py_slice (keys data) start_idx end_idx.

(** The body of the loop (lines 51 to 69), over the remaining file numbers. *)
Fixpoint process_chunks (file_nums : list Z) (index : dict Z) : io V (dict Z) :=
  match file_nums with
  | [] => mret index
  | file_num :: rest =>
      let chunk_keys := chunk_keys_of file_num in
      chunk_data ← lift (dict_comprehension data chunk_keys []);
      let index := foldl (λ idx key, dict_set idx key file_num) index chunk_keys in
      let output_file := os_path_join output_dir (shard_name file_num) in
      json_dump_file output_file (Minified chunk_data);;
      process_chunks rest index
  end.

(** [split_json_file] (lines 6 to 79) from the loaded [data] on; [rng] is the
    draw of the random generator.  Of the messages only the one of line 36
    is here, for what its f-string can raise: the other messages show no
    [int], or a length that is at most [total_objects], which line 36 has
    shown by then. *)
Definition split_json_file (rng : nat) : io V string :=
  let index : dict Z := [] in
  let total_objects := len data in
  num_files ← lift (compute_num_files total_objects objects_per_file);
  lift (format_ints [total_objects; num_files; objects_per_file]);;
  example_key ← lift (random_choice rng (keys data));
  example_value ← lift (dict_getitem data example_key);
  let example_data := dict_set [] example_key example_value in
  let doc_file := os_path_join output_dir doc_name in
  json_dump_file doc_file (Indented example_data);;
  index ← process_chunks (range num_files) index;
  let index_file := os_path_join output_dir index_name in
  json_dump_file index_file (MinifiedIndex index);;
  mret index_file.

End split.

(** Lines 49 to 79 on their own: what follows the sample document, for a
    given number of files. *)
Definition shards_and_index {V} (data : dict V) (output_dir : string)
    (objects_per_file num_files : Z) : io V string :=
  index ← process_chunks data output_dir objects_per_file (range num_files) [];
  let index_file := os_path_join output_dir index_name in
  json_dump_file index_file (MinifiedIndex index);;
  mret index_file.

(** A run from a world in which nothing has been written yet. *)
Definition run {V} (can : string → bool) (data : dict V) (output_dir : string)
    (objects_per_file : Z) (rng : nat) : world V * (exn + string) :=
  split_json_file data output_dir objects_per_file rng (mkworld can []).

Definition log_of {V A} (r : world V * A) : list (string * document V) :=
  written r.1.

(** The shard dictionaries of a log, in the order they were written. *)
Definition shards_of {V} (log : list (string * document V)) : list (dict V) :=
  omap (λ w, match w.2 with Minified d => Some d | _ => None end) log.

(** The index dictionaries of a log. *)
Definition indexes_of {V} (log : list (string * document V)) : list (dict Z) :=
  omap (λ w, match w.2 with MinifiedIndex d => Some d | _ => None end) log.

(** The sample documents of a log. *)
Definition samples_of {V} (log : list (string * document V)) : list (dict V) :=
  omap (λ w, match w.2 with Indented d => Some d | _ => None end) log.

(** Every path can be written. *)
Definition all_writable : string → bool := λ _, true.

(** Integer payloads, printed in decimal, with keys in double quotes (keys
    that need no escaping). *)
Definition int_encoder : json_encoder Z := {|
  encode_key := λ k, dquote +:+ k +:+ dquote;
  encode_value := pretty;
  encode_value_indented := pretty
|}.

(** ** Reference points for the statements *)

(** The elements at the ordinal positions [lo <= j < hi] of [l]. *)
Definition positions {A} (l : list A) (lo hi : Z) : list A :=
  take (Z.to_nat (hi - lo)) (drop (Z.to_nat lo) l).

(** The records of shard [file_num] for chunk size [C]. *)
Definition chunk_of {V} (data : dict V) (C file_num : Z) : dict V :=
  positions data (file_num * C) (Z.min ((file_num + 1) * C) (len data)).

(** The write of shard [file_num]. *)
Definition shard_write {V} (data : dict V) (output_dir : string) (C file_num : Z)
    : string * document V :=
  (os_path_join output_dir (shard_name file_num), Minified (chunk_of data C file_num)).

(** The index entries of shard [file_num]. *)
Definition index_entries {V} (data : dict V) (C file_num : Z) : dict Z :=
  (λ key, (key, file_num)) <$> keys (chunk_of data C file_num).

(** The index after [N] shards. *)
Definition index_upto {V} (data : dict V) (C N : Z) : dict Z :=
  concat (index_entries data C <$> range N).

(** The writes of a run that meets no error, for [N] shards and the sampled
    record [kv]. *)
Definition expected_log {V} (data : dict V) (output_dir : string) (C N : Z)
    (kv : string * V) : list (string * document V) :=
  (os_path_join output_dir doc_name, Indented [kv])
  :: (shard_write data output_dir C <$> range N)
  ++ [(os_path_join output_dir index_name, MinifiedIndex (index_upto data C N))].

(** The last document written to [path], if any. *)
Definition last_write {V} (path : string) (log : list (string * document V))
    : option (document V) :=
  last (omap (λ w, if decide (w.1 = path) then Some w.2 else None) log).

(** A write that is not a sample document. *)
Definition not_indented {V} (w : string * document V) : Prop :=
  match w.2 with Indented _ => False | _ => True end.

(** A length that a [dict] can have: its entries must fit in memory, so a
    length is far below [2 ^ 53] and [int / int] sees it exactly. *)
Definition len_fits {A} (l : list A) : Prop := len l < 2 ^ 53.

(** The example of the specification, and the smallest input. *)
Definition five_records : dict Z :=
  [("a", 1); ("b", 2); ("c", 3); ("d", 4); ("e", 5)].
Definition one_record : dict Z := [("a", 1)].

(** ** The whole function: directory, input file and console *)

(** The run above starts from the loaded [data].  Here is the function from
    its first line, and the script around it: the output directory is made
    when it is missing, the input file is opened and parsed, and every
    message is printed.  What the operating system answers is a parameter
    ([system]); the events are recorded in program order. *)

(** What [json.load] returns at the top level.  Of an array and of a string
    only the length is kept: the function takes their [len] and nothing else. *)
Inductive json_top (V : Type) :=
  | TopObject (d : dict V)
  | TopArray (n : nat)
  | TopString (n : nat)
  | TopScalar.                       (* a number, true, false or null *)
Arguments TopObject {V} d.
Arguments TopArray {V} n.
Arguments TopString {V} n.
Arguments TopScalar {V}.

(** What lines 26 and 27 do with the input file. *)
Inductive load_result (V : Type) :=
  | CannotOpen                       (* open(input_file, 'r') raises OSError *)
  | Malformed                        (* json.load raises ValueError *)
  | Loaded (doc : json_top V).
Arguments CannotOpen {V}.
Arguments Malformed {V}.
Arguments Loaded {V} doc.

(** The exceptions of the whole function. *)
Inductive error :=
  | Raised (e : exn)                 (* those of the part after the load *)
  | MakedirsError (dir : string)     (* OSError of os.makedirs *)
  | OpenError (path : string)        (* OSError of open(input_file, 'r') *)
  | DecodeError                      (* ValueError of json.load *)
  | TypeError
  | AttributeError.

(** The operating system, as far as the function asks it. *)
Record system (V : Type) := {
  dir_exists : string → bool;        (* os.path.exists *)
  can_makedirs : string → bool;      (* os.makedirs does not raise *)
  load_file : string → load_result V;
  can_open_w : string → bool         (* open(path, 'w') does not raise *)
}.
Arguments dir_exists {V} _ _.
Arguments can_makedirs {V} _ _.
Arguments load_file {V} _ _.
Arguments can_open_w {V} _ _.

(** What the function does to the outside, in program order. *)
Inductive event (V : Type) :=
  | MadeDirs (dir : string)
  | Printed (line : string)
  | Wrote (path : string) (doc : document V).
Arguments MadeDirs {V} dir.
Arguments Printed {V} line.
Arguments Wrote {V} path doc.

(** A computation with its events, which may raise. *)
Definition act (V A : Type) : Type := list (event V) * (error + A).

Global Instance act_ret {V} : MRet (act V) := λ A x, ([], inr x).
Global Instance act_bind {V} : MBind (act V) := λ A B f m,
  match m with
  | (tr, inl err) => (tr, inl err)
  | (tr, inr x) => (tr ++ (f x).1, (f x).2)
  end.

Definition emit {V} (e : event V) : act V () := ([e], inr ()).
Definition raise {V A} (err : error) : act V A := ([], inl err).

(** The errors of the part after the load, among those of the whole. *)
Definition core_result {A} (r : exn + A) : error + A :=
  match r with
  | inl e => inl (Raised e)
  | inr x => inr x
  end.

Definition pure_step {V A} (r : exn + A) : act V A := ([], core_result r).

(** [print(line)] *)
Definition py_print {V} (line : string) : act V () := emit (Printed line).

(** [print(f"...")] for an f-string that shows [ints]: they are turned into
    text before anything is printed. *)
Definition py_print_f {V} (ints : list Z) (line : string) : act V () :=
  pure_step (format_ints ints);;
  py_print line.

(** The five messages. *)
Definition msg_loading (input_file : string) : string :=
  "Loading JSON file: " +:+ input_file.
Definition msg_splitting (total_objects num_files objects_per_file : Z) : string :=
  "Splitting " +:+ pretty total_objects +:+ " objects into " +:+ pretty num_files
  +:+ " files, with " +:+ pretty objects_per_file +:+ " objects per file".
Definition msg_doc (doc_file : string) : string :=
  "Created documentation file " +:+ doc_file +:+ " with an example item".
Definition msg_shard (output_file : string) (n : Z) : string :=
  "Created minified file " +:+ output_file +:+ " with " +:+ pretty n +:+ " objects".
Definition msg_index (index_file : string) (n : Z) : string :=
  "Created minified index file " +:+ index_file +:+ " with " +:+ pretty n
  +:+ " entries".

Section split_full.
Context {V : Type}.
Variable sys : system V.

(** Lines 21 and 22. *)
Definition ensure_dir (output_dir : string) : act V () :=
  if dir_exists sys output_dir then mret ()
  else if can_makedirs sys output_dir then emit (MadeDirs output_dir)
  else raise (MakedirsError output_dir).

(** Lines 26 and 27. *)
Definition load (input_file : string) : act V (json_top V) :=
  match load_file sys input_file with
  | CannotOpen => raise (OpenError input_file)
  | Malformed => raise DecodeError
  | Loaded doc => mret doc
  end.

(** [len(data)] *)
Definition top_len (data : json_top V) : act V Z :=
  match data with
  | TopObject d => mret (len d)
  | TopArray n | TopString n => mret (Z.of_nat n)
  | TopScalar => raise TypeError
  end.

(** [data.keys()] exists for a [dict] only; from there on [data] is one. *)
Definition as_mapping (data : json_top V) : act V (dict V) :=
  match data with
  | TopObject d => mret d
  | _ => raise AttributeError
  end.

(** [with open(path, 'w') as f: json.dump(doc, f, ...)] *)
Definition dump (path : string) (doc : document V) : act V () :=
  if can_open_w sys path then emit (Wrote path doc)
  else raise (Raised (OSError path)).

(** The loop (lines 51 to 71), with its message. *)
Fixpoint process_chunks_full (data : dict V) (output_dir : string)
    (objects_per_file : Z) (file_nums : list Z) (index : dict Z) : act V (dict Z) :=
  match file_nums with
  | [] => mret index
  | file_num :: rest =>
      let chunk_keys := chunk_keys_of data objects_per_file file_num in
      chunk_data ← pure_step (dict_comprehension data chunk_keys []);
      let index := foldl (λ idx key, dict_set idx key file_num) index chunk_keys in
      let output_file := os_path_join output_dir (shard_name file_num) in
      dump output_file (Minified chunk_data);;
      py_print_f [len chunk_keys] (msg_shard output_file (len chunk_keys));;
      process_chunks_full data output_dir objects_per_file rest index
  end.

(** [split_json_file] from its first line to its last (lines 6 to 79). *)
Definition split_json_file_full (input_file output_dir : string)
    (objects_per_file : Z) (rng : nat) : act V string :=
  ensure_dir output_dir;;
  py_print (msg_loading input_file);;
  data ← load input_file;
  let index : dict Z := [] in
  total_objects ← top_len data;
  num_files ← pure_step (compute_num_files total_objects objects_per_file);
  py_print_f [total_objects; num_files; objects_per_file]
    (msg_splitting total_objects num_files objects_per_file);;
  data ← as_mapping data;
  example_key ← pure_step (random_choice rng (keys data));
  example_value ← pure_step (dict_getitem data example_key);
  let example_data := dict_set [] example_key example_value in
  let doc_file := os_path_join output_dir doc_name in
  dump doc_file (Indented example_data);;
  py_print (msg_doc doc_file);;
  index ← process_chunks_full data output_dir objects_per_file (range num_files) index;
  let index_file := os_path_join output_dir index_name in
  dump index_file (MinifiedIndex index);;
  py_print_f [len index] (msg_index index_file (len index));;
  mret index_file.


End split_full.

(** Lines 25 to 79 on their own: the function once the output directory is
    there. *)
Definition load_and_split {V} (sys : system V) (input_file output_dir : string)
    (objects_per_file : Z) (rng : nat) : act V string :=
  py_print (msg_loading input_file);;
  data ← load sys input_file;
  let index : dict Z := [] in
  total_objects ← top_len data;
  num_files ← pure_step (compute_num_files total_objects objects_per_file);
  py_print_f [total_objects; num_files; objects_per_file]
    (msg_splitting total_objects num_files objects_per_file);;
  data ← as_mapping data;
  example_key ← pure_step (random_choice rng (keys data));
  example_value ← pure_step (dict_getitem data example_key);
  let example_data := dict_set [] example_key example_value in
  let doc_file := os_path_join output_dir doc_name in
  dump sys doc_file (Indented example_data);;
  py_print (msg_doc doc_file);;
  index ← process_chunks_full sys data output_dir objects_per_file (range num_files) index;
  let index_file := os_path_join output_dir index_name in
  dump sys index_file (MinifiedIndex index);;
  py_print_f [len index] (msg_index index_file (len index));;
  mret index_file.

(** The files written and the lines printed, in order. *)
Definition writes_of {V} (tr : list (event V)) : list (string * document V) :=
  omap (λ e, match e with Wrote path doc => Some (path, doc) | _ => None end) tr.
Definition prints_of {V} (tr : list (event V)) : list string :=
  omap (λ e, match e with Printed line => Some line | _ => None end) tr.

(** A system with the directory in place, every path writable, and one
    input file, [in.json], that holds [doc]. *)
Definition system_with {V} (doc : json_top V) : system V := {|
  dir_exists := λ _, true;
  can_makedirs := λ _, true;
  load_file := λ path, if String.eqb path "in.json" then Loaded doc else CannotOpen;
  can_open_w := λ _, true
|}.

(** The same with no output directory yet. *)
Definition fresh_system_with {V} (doc : json_top V) : system V := {|
  dir_exists := λ _, false;
  can_makedirs := λ _, true;
  load_file := λ path, if String.eqb path "in.json" then Loaded doc else CannotOpen;
  can_open_w := λ _, true
|}.

(** * Properties *)

(** ** Rounding *)

Lemma pow2_nonneg k : 0 <= k -> pow2 k = 2 ^ k.
Proof. intros. unfold pow2. f_equal. lia. Qed.

Lemma pow2_nonpos k : k <= 0 -> pow2 k = 1.
Proof. intros. unfold pow2. replace (Z.max 0 k) with 0 by lia. reflexivity. Qed.

Lemma pow2_pos k : 0 < pow2 k.
Proof. unfold pow2. apply Z.pow_pos_nonneg; lia. Qed.

Lemma pow2_split a b : 0 <= a -> 0 <= b -> 2 ^ (a + b) = 2 ^ a * 2 ^ b.
Proof. intros. apply Z.pow_add_r; lia. Qed.

Section rounding.
Variables n d : Z.
Hypothesis Hd : 0 < d.

Lemma div_half_even_le j : n <= j * d -> div_half_even n d <= j.
Proof using Hd.
  intros Hj. unfold div_half_even.
  pose proof (Z.div_mod n d ltac:(lia)) as E.
  pose proof (Z.mod_pos_bound n d Hd) as B.
  repeat case_match; nia.
Qed.

Lemma div_half_even_ge j : j * d <= n -> j <= div_half_even n d.
Proof using Hd.
  intros Hj. unfold div_half_even.
  pose proof (Z.div_mod n d ltac:(lia)) as E.
  pose proof (Z.mod_pos_bound n d Hd) as B.
  repeat case_match; nia.
Qed.

Lemma div_half_even_gt j :
  j * d <= n -> d < 2 * (n - j * d) -> j + 1 <= div_half_even n d.
Proof using Hd.
  intros Hj Hh. unfold div_half_even.
  pose proof (Z.div_mod n d ltac:(lia)) as E.
  pose proof (Z.mod_pos_bound n d Hd) as B.
  repeat case_match; nia.
Qed.

End rounding.

Lemma div_half_even_1 n : div_half_even n 1 = n.
Proof. unfold div_half_even. rewrite Z.div_1_r, Z.mod_1_r. reflexivity. Qed.

Section log2_quot.
Variables n d : Z.
Hypothesis Hn : 0 < n.
Hypothesis Hd : 0 < d.

(** [2 ^ fl <= n / d], both sides cleared of negative powers. *)
Lemma floor_log2_quot_lower :
  d * pow2 (floor_log2_quot n d) <= n * pow2 (- floor_log2_quot n d).
Proof using Hn Hd.
  unfold floor_log2_quot.
  set (g := Z.log2 n - Z.log2 d).
  destruct (Z.leb_spec (d * pow2 g) (n * pow2 (- g))) as [Hle|Hgt]; [exact Hle|].
  destruct (Z.log2_spec n Hn) as [Hn1 Hn2], (Z.log2_spec d Hd) as [Hd1 Hd2].
  pose proof (Z.log2_nonneg n) as Ln. pose proof (Z.log2_nonneg d) as Ld.
  destruct (Z.le_gt_cases 1 g) as [G|G].
  - rewrite (pow2_nonneg (g - 1)), (pow2_nonpos (- (g - 1))) by lia.
    assert (2 ^ Z.log2 n = 2 ^ (g - 1) * 2 ^ Z.succ (Z.log2 d)) as E.
    { rewrite <- pow2_split by lia. f_equal; lia. }
    assert (0 < 2 ^ (g - 1)) by (apply Z.pow_pos_nonneg; lia). nia.
  - rewrite (pow2_nonpos (g - 1)), (pow2_nonneg (- (g - 1))) by lia.
    assert (2 ^ Z.succ (Z.log2 d) = 2 ^ Z.log2 n * 2 ^ (- (g - 1))) as E.
    { rewrite <- pow2_split by lia. f_equal; lia. }
    assert (0 < 2 ^ (- (g - 1))) by (apply Z.pow_pos_nonneg; lia). nia.
Qed.

(** [n / d < 2 ^ (fl + 1)]. *)
Lemma floor_log2_quot_upper :
  n * pow2 (- (floor_log2_quot n d + 1)) < d * pow2 (floor_log2_quot n d + 1).
Proof using Hn Hd.
  unfold floor_log2_quot.
  set (g := Z.log2 n - Z.log2 d).
  destruct (Z.leb_spec (d * pow2 g) (n * pow2 (- g))) as [Hle|Hgt].
  2: { replace (g - 1 + 1) with g by lia. exact Hgt. }
  destruct (Z.log2_spec n Hn) as [Hn1 Hn2], (Z.log2_spec d Hd) as [Hd1 Hd2].
  pose proof (Z.log2_nonneg n) as Ln. pose proof (Z.log2_nonneg d) as Ld.
  destruct (Z.le_gt_cases 0 (g + 1)) as [G|G].
  - rewrite (pow2_nonneg (g + 1)), (pow2_nonpos (- (g + 1))) by lia.
    assert (2 ^ Z.succ (Z.log2 n) = 2 ^ (g + 1) * 2 ^ Z.log2 d) as E.
    { rewrite <- pow2_split by lia. f_equal; lia. }
    assert (0 < 2 ^ (g + 1)) by (apply Z.pow_pos_nonneg; lia). nia.
  - rewrite (pow2_nonpos (g + 1)), (pow2_nonneg (- (g + 1))) by lia.
    assert (2 ^ Z.log2 d = 2 ^ Z.succ (Z.log2 n) * 2 ^ (- (g + 1))) as E.
    { rewrite <- pow2_split by lia. f_equal; lia. }
    assert (0 < 2 ^ (- (g + 1))) by (apply Z.pow_pos_nonneg; lia). nia.
Qed.

End log2_quot.

Lemma quot_lt_pow2_mono n d a b :
  0 < n -> 0 < d -> a <= b ->
  n * pow2 (- a) < d * pow2 a -> n * pow2 (- b) < d * pow2 b.
Proof.
  intros Hn Hd Hab H.
  destruct (Z.le_gt_cases 0 a) as [A|A], (Z.le_gt_cases 0 b) as [B|B]; try lia.
  - rewrite (pow2_nonneg a), (pow2_nonpos (- a)) in H by lia.
    rewrite (pow2_nonneg b), (pow2_nonpos (- b)) by lia.
    pose proof (Z.pow_le_mono_r 2 a b ltac:(lia) Hab). nia.
  - rewrite (pow2_nonpos a), (pow2_nonneg (- a)) in H by lia.
    rewrite (pow2_nonneg b), (pow2_nonpos (- b)) by lia.
    assert (0 < 2 ^ (- a)) by (apply Z.pow_pos_nonneg; lia).
    assert (0 < 2 ^ b) by (apply Z.pow_pos_nonneg; lia). nia.
  - rewrite (pow2_nonpos a), (pow2_nonneg (- a)) in H by lia.
    rewrite (pow2_nonpos b), (pow2_nonneg (- b)) by lia.
    pose proof (Z.pow_le_mono_r 2 (- b) (- a) ltac:(lia) ltac:(lia)). nia.
Qed.

Lemma quot_lt_pow2_shift n d e k :
  0 < n -> 0 < d -> 0 <= k ->
  n * pow2 (- (e + k)) < d * pow2 (e + k) ->
  n * pow2 (- e) < 2 ^ k * (d * pow2 e).
Proof.
  intros Hn Hd Hk H.
  assert (0 < 2 ^ k) by (apply Z.pow_pos_nonneg; lia).
  destruct (Z.le_gt_cases 0 e) as [E|E].
  - rewrite (pow2_nonneg (e + k)), (pow2_nonpos (- (e + k))) in H by lia.
    rewrite (pow2_nonneg e), (pow2_nonpos (- e)) by lia.
    rewrite pow2_split in H by lia. nia.
  - rewrite (pow2_nonpos e), (pow2_nonneg (- e)) by lia.
    destruct (Z.le_gt_cases 0 (e + k)) as [F|F].
    + rewrite (pow2_nonneg (e + k)), (pow2_nonpos (- (e + k))) in H by lia.
      assert (2 ^ k = 2 ^ (e + k) * 2 ^ (- e)) as ->.
      { rewrite <- pow2_split by lia. f_equal; lia. }
      assert (0 < 2 ^ (- e)) by (apply Z.pow_pos_nonneg; lia). nia.
    + rewrite (pow2_nonpos (e + k)), (pow2_nonneg (- (e + k))) in H by lia.
      assert (2 ^ (- e) = 2 ^ (- (e + k)) * 2 ^ k) as ->.
      { rewrite <- pow2_split by lia. f_equal; lia. }
      nia.
Qed.

(** The rounded significand has at most 53 bits (or is [2 ^ 53]). *)
Lemma significand_bound n d :
  0 < n -> 0 < d ->
  let e := ulp_exponent n d in
  0 <= div_half_even (n * pow2 (- e)) (d * pow2 e) <= 2 ^ 53.
Proof.
  intros Hn Hd e.
  pose proof (pow2_pos e). pose proof (pow2_pos (- e)).
  assert (0 < d * pow2 e) as Hden by (apply Z.mul_pos_pos; lia).
  split.
  - apply (div_half_even_ge _ _ Hden 0). nia.
  - apply (div_half_even_le _ _ Hden).
    apply Z.lt_le_incl.
    apply quot_lt_pow2_shift; try lia.
    apply (quot_lt_pow2_mono n d (floor_log2_quot n d + 1)); try lia.
    + unfold e, ulp_exponent. lia.
    + by apply floor_log2_quot_upper.
Qed.

Lemma quot_ge_pow2_shift n d e k :
  0 < n -> 0 < d -> 0 <= k ->
  d * pow2 (e + k) <= n * pow2 (- (e + k)) ->
  2 ^ k * (d * pow2 e) <= n * pow2 (- e).
Proof.
  intros Hn Hd Hk H.
  assert (0 < 2 ^ k) by (apply Z.pow_pos_nonneg; lia).
  destruct (Z.le_gt_cases 0 e) as [E|E].
  - rewrite (pow2_nonneg (e + k)), (pow2_nonpos (- (e + k))) in H by lia.
    rewrite (pow2_nonneg e), (pow2_nonpos (- e)) by lia.
    rewrite pow2_split in H by lia. nia.
  - rewrite (pow2_nonpos e), (pow2_nonneg (- e)) by lia.
    destruct (Z.le_gt_cases 0 (e + k)) as [F|F].
    + rewrite (pow2_nonneg (e + k)), (pow2_nonpos (- (e + k))) in H by lia.
      assert (2 ^ k = 2 ^ (e + k) * 2 ^ (- e)) as ->.
      { rewrite <- pow2_split by lia. f_equal; lia. }
      assert (0 < 2 ^ (- e)) by (apply Z.pow_pos_nonneg; lia). nia.
    + rewrite (pow2_nonpos (e + k)), (pow2_nonneg (- (e + k))) in H by lia.
      assert (2 ^ (- e) = 2 ^ (- (e + k)) * 2 ^ k) as ->.
      { rewrite <- pow2_split by lia. f_equal; lia. }
      nia.
Qed.

(** Outside the subnormal range the significand has exactly 53 bits. *)
Lemma significand_normal n d :
  0 < n -> 0 < d ->
  let e := ulp_exponent n d in
  -1074 < e -> 2 ^ 52 <= div_half_even (n * pow2 (- e)) (d * pow2 e).
Proof.
  intros Hn Hd e He.
  pose proof (pow2_pos e).
  assert (0 < d * pow2 e) as Hden by (apply Z.mul_pos_pos; lia).
  apply (div_half_even_ge _ _ Hden).
  apply quot_ge_pow2_shift; try lia.
  assert (e + 52 = floor_log2_quot n d) as -> by (unfold e, ulp_exponent in *; lia).
  by apply floor_log2_quot_lower.
Qed.

(** The rounded quotient is a nearest integer. *)
Lemma div_half_even_nearest n d :
  0 < d -> 2 * Z.abs (div_half_even n d * d - n) <= d.
Proof.
  intros Hd. unfold div_half_even.
  pose proof (Z.div_mod n d ltac:(lia)) as E.
  pose proof (Z.mod_pos_bound n d Hd) as B.
  repeat case_match; nia.
Qed.

Lemma quot_ge_pow2_small n d fl :
  0 < n < 2 ^ 53 -> 0 < d ->
  d * pow2 fl <= n * pow2 (- fl) ->
  fl <= 52 /\ d < 2 ^ (53 - fl).
Proof.
  intros Hn Hd H.
  destruct (Z.le_gt_cases 0 fl) as [F|F].
  - rewrite (pow2_nonneg fl), (pow2_nonpos (- fl)) in H by lia.
    assert (fl <= 52) as Hfl.
    { destruct (Z.le_gt_cases fl 52) as [|G]; [done|exfalso].
      pose proof (Z.pow_le_mono_r 2 53 fl ltac:(lia) ltac:(lia)). nia. }
    split; [done|].
    assert (2 ^ 53 = 2 ^ fl * 2 ^ (53 - fl)) as E.
    { rewrite <- pow2_split by lia. f_equal; lia. }
    assert (0 < 2 ^ fl) by (apply Z.pow_pos_nonneg; lia). nia.
  - rewrite (pow2_nonpos fl), (pow2_nonneg (- fl)) in H by lia.
    split; [lia|].
    assert (2 ^ (53 - fl) = 2 ^ 53 * 2 ^ (- fl)) as ->.
    { rewrite <- pow2_split by lia. f_equal; lia. }
    assert (0 < 2 ^ (- fl)) by (apply Z.pow_pos_nonneg; lia). nia.
Qed.

Lemma ceil_div_spec a b :
  0 < a -> 0 < b ->
  0 < ceil_div a b /\ (ceil_div a b - 1) * b < a <= ceil_div a b * b.
Proof.
  intros Ha Hb. unfold ceil_div.
  pose proof (Z.div_mod (a + b - 1) b ltac:(lia)) as E.
  pose proof (Z.mod_pos_bound (a + b - 1) b Hb) as B.
  nia.
Qed.

(** ** The number of files *)

(** For a dividend below [2 ^ 53] the last place of the quotient is a unit
    only when the divisor is [1]; otherwise it is a negative power of two,
    and outside the subnormal range the divisor is below twice its inverse. *)
Lemma ulp_exponent_cases T d :
  0 < T < 2 ^ 53 -> 0 < d ->
  let e := ulp_exponent T d in
  (e = 0 /\ d = 1) \/ (-1074 <= e < 0 /\ (e <> -1074 -> d < 2 ^ (1 - e))).
Proof.
  intros HT Hd e.
  pose proof (floor_log2_quot_lower T d ltac:(lia) Hd) as HL.
  pose proof (quot_ge_pow2_small T d _ HT Hd HL) as [Hfl Hb].
  assert (e = Z.max (floor_log2_quot T d - 52) (-1074)) as He by reflexivity.
  destruct (Z.le_gt_cases 0 e) as [E|E].
  - left. assert (floor_log2_quot T d = 52) as Hfl52 by lia.
    rewrite Hfl52 in Hb. change (2 ^ (53 - 52)) with 2 in Hb. lia.
  - right. split; [lia|]. intros Hne.
    replace (1 - e) with (53 - floor_log2_quot T d) by lia. exact Hb.
Qed.

Lemma no_overflow_small T d :
  0 < T < 2 ^ 53 -> 0 < d ->
  let e := ulp_exponent T d in
  div_half_even (T * pow2 (- e)) (d * pow2 e) * pow2 e < 2 ^ 1024.
Proof.
  intros HT Hd e.
  assert (2 ^ 53 < 2 ^ 1024) as Hbig by (apply Z.pow_lt_mono_r; lia).
  pose proof (significand_bound T d ltac:(lia) Hd) as Hm. cbv zeta in Hm. fold e in Hm.
  destruct (ulp_exponent_cases T d HT Hd) as [[He ->]|[He _]]; fold e in He.
  - rewrite He. change (pow2 (- 0)) with 1. change (pow2 0) with 1.
    rewrite !Z.mul_1_r, div_half_even_1. lia.
  - rewrite (pow2_nonpos e) in * by lia. lia.
Qed.

(** The count is the exact ceiling for every chunk size below [2 ^ 1075];
    from there on the quotient may underflow to zero. *)
Lemma compute_num_files_pos T C :
  0 < T < 2 ^ 53 -> 0 < C ->
  exists N, compute_num_files T C = inr N /\
    (C < 2 ^ 1075 -> N = ceil_div T C) /\
    (N = 0 \/ N = ceil_div T C).
Proof.
  intros HT HC.
  unfold compute_num_files, int_true_divide.
  destruct (Z.eqb_spec C 0) as [|_]; [lia|].
  destruct (Z.eqb_spec T 0) as [|_]; [lia|].
  rewrite (Z.abs_eq T), (Z.abs_eq C) by lia.
  rewrite (Z.sgn_pos T), (Z.sgn_pos C) by lia.
  pose proof (no_overflow_small T C HT HC) as Hov. cbv zeta in Hov.
  destruct (Z.leb_spec (2 ^ 1024)
    (div_half_even (T * pow2 (- ulp_exponent T C)) (C * pow2 (ulp_exponent T C))
     * pow2 (ulp_exponent T C))) as [|_]; [lia|clear Hov].
  eexists. split; [reflexivity|].
  unfold math_ceil; cbn [mant expo]. rewrite !Z.mul_1_l.
  destruct (ceil_div_spec T C ltac:(lia) HC) as (Hk0 & Hk1 & Hk2).
  set (K := ceil_div T C) in *.
  destruct (ulp_exponent_cases T C HT HC) as [[He ->]|[He Hsmall]].
  - (* the quotient is at least 2 ^ 52: the divisor is 1 *)
    rewrite He. change (pow2 (- 0)) with 1. change (pow2 0) with 1.
    rewrite !Z.mul_1_r, div_half_even_1. change (0 <=? 0) with true. cbv iota.
    assert (K = T) as -> by lia. change (2 ^ 0) with 1. lia.
  - set (e := ulp_exponent T C) in *.
    destruct (Z.leb_spec 0 e) as [|_]; [lia|].
    rewrite (pow2_nonpos e), (pow2_nonneg (- e)) by lia. rewrite Z.mul_1_r.
    set (s := 2 ^ (- e)).
    set (m := div_half_even (T * s) C).
    assert (0 < s) as Hs by (apply Z.pow_pos_nonneg; lia).
    assert (m <= K * s) as Hup.
    { apply (div_half_even_le _ _ HC). nia. }
    assert (0 <= m) as Hm0.
    { apply (div_half_even_ge _ _ HC 0). nia. }
    assert (- ((- m) / s) <= K) as HNup.
    { enough (- K <= (- m) / s) by lia. apply Z.div_le_lower_bound; nia. }
    assert (0 <= - ((- m) / s)) as HNlo.
    { enough ((- m) / s <= 0) by lia. apply Z.div_le_upper_bound; nia. }
    assert (C < 2 * s -> - ((- m) / s) = K) as Hexact.
    { intros H2s.
      assert ((K - 1) * s + 1 <= m) as Hlo.
      { apply (div_half_even_gt _ _ HC); nia. }
      enough ((- m) / s < - (K - 1)) by lia.
      apply Z.div_lt_upper_bound; nia. }
    assert (2 * s = 2 ^ (1 - e)) as H2s.
    { unfold s. replace (1 - e) with (1 + - e) by lia. by rewrite pow2_split by lia. }
    split.
    + intros HCsmall. apply Hexact. rewrite H2s.
      destruct (Z.eq_dec e (-1074)) as [->|Hne]; [exact HCsmall|by apply Hsmall].
    + destruct (Z.lt_ge_cases C (2 * s)) as [Hlt|Hge]; [right; by apply Hexact|].
      assert (e = -1074) as He'.
      { destruct (Z.eq_dec e (-1074)) as [|Hne]; [done|exfalso].
        specialize (Hsmall Hne). lia. }
      assert (T < C) as HTC.
      { rewrite H2s, He' in Hge.
        assert (2 ^ 53 < 2 ^ (1 - -1074)) by (apply Z.pow_lt_mono_r; lia). lia. }
      assert (K = 1) by nia. lia.
Qed.

(** A negative chunk size gives no file at all. *)
Lemma compute_num_files_neg T C :
  0 < T < 2 ^ 53 -> C < 0 ->
  exists N, compute_num_files T C = inr N /\ N <= 0.
Proof.
  intros HT HC.
  unfold compute_num_files, int_true_divide.
  destruct (Z.eqb_spec C 0) as [|_]; [lia|].
  destruct (Z.eqb_spec T 0) as [|_]; [lia|].
  rewrite (Z.abs_eq T), (Z.abs_neq C) by lia.
  rewrite (Z.sgn_pos T), (Z.sgn_neg C) by lia.
  pose proof (no_overflow_small T (- C) HT ltac:(lia)) as Hov. cbv zeta in Hov.
  pose proof (significand_bound T (- C) ltac:(lia) ltac:(lia)) as Hm. cbv zeta in Hm.
  set (e := ulp_exponent T (- C)) in *.
  set (m := div_half_even (T * pow2 (- e)) (- C * pow2 e)) in *.
  destruct (Z.leb_spec (2 ^ 1024) (m * pow2 e)) as [|_]; [lia|].
  eexists. split; [reflexivity|].
  unfold math_ceil; cbn [mant expo].
  destruct (Z.leb_spec 0 e) as [He|He].
  - assert (0 < 2 ^ e) by (apply Z.pow_pos_nonneg; lia). nia.
  - assert (0 < 2 ^ (- e)) by (apply Z.pow_pos_nonneg; lia).
    enough (0 <= (- (1 * -1 * m)) / 2 ^ (- e)) by lia.
    apply Z.div_pos; lia.
Qed.

Lemma compute_num_files_zero C : compute_num_files 0 C =
  if C =? 0 then inl ZeroDivisionError else inr 0.
Proof. unfold compute_num_files, int_true_divide. by destruct (C =? 0). Qed.

Lemma compute_num_files_div0 T : compute_num_files T 0 = inl ZeroDivisionError.
Proof. reflexivity. Qed.

(** ** The digits of an [int] *)

Lemma length_pretty_N_go_ge (x : N) (s : string) :
  (String.length s ≤ String.length (pretty_N_go x s))%nat.
Proof.
  revert s. induction (N.lt_wf_0 x) as [x _ IH]; intros s.
  destruct (decide (x = 0)%N) as [->|Hx].
  - by rewrite pretty_N_go_0.
  - rewrite pretty_N_go_step by lia.
    etrans; [|apply IH; apply N.div_lt; lia]. simpl. lia.
Qed.

(** A numeral has at most [k] digits exactly when it is below [10 ^ k]. *)
Lemma length_pretty_N_go (x : N) (k : nat) (s : string) :
  (x < 10 ^ N.of_nat k)%N ↔
  (String.length (pretty_N_go x s) ≤ String.length s + k)%nat.
Proof.
  revert k s. induction (N.lt_wf_0 x) as [x _ IH]; intros k s.
  destruct (decide (x = 0)%N) as [->|Hx].
  { rewrite pretty_N_go_0. split; [lia|]. intros _. apply N.neq_0_lt_0, N.pow_nonzero. lia. }
  rewrite pretty_N_go_step by lia.
  destruct k as [|k].
  - change (10 ^ N.of_nat 0)%N with 1%N. split; [lia|]. intros Hle.
    pose proof (length_pretty_N_go_ge (x `div` 10)
                  (String (pretty_N_char (x `mod` 10)) s)) as Hge.
    simpl in Hge. lia.
  - rewrite Nat2N.inj_succ, N.pow_succ_r'.
    set (c := pretty_N_char (x `mod` 10)).
    replace (String.length s + S k)%nat with (String.length (String c s) + k)%nat
      by (simpl; lia).
    rewrite <- (IH (x `div` 10)%N) by (apply N.div_lt; lia).
    split.
    + intros Hlt. apply N.Div0.div_lt_upper_bound. lia.
    + intros Hlt. pose proof (N.Div0.div_mod x 10) as Hdm.
      pose proof (N.mod_lt x 10 ltac:(lia)). lia.
Qed.

Lemma num_digits_le (n k : Z) : 1 <= k → num_digits n <= k ↔ Z.abs n < 10 ^ k.
Proof.
  intros Hk. unfold num_digits.
  assert (pretty (Z.abs n) = pretty (Z.to_N (Z.abs n))) as ->.
  { by destruct n. }
  set (x := Z.to_N (Z.abs n)).
  assert (Z.abs n = Z.of_N x) as -> by (subst x; lia).
  replace (10 ^ k) with (Z.of_N (10 ^ N.of_nat (Z.to_nat k))).
  2: { rewrite N2Z.inj_pow, nat_N_Z, Z2Nat.id by lia. done. }
  rewrite <- N2Z.inj_lt.
  unfold pretty at 1, pretty_N. destruct (decide (x = 0)%N) as [->|Hx].
  - simpl. split; [|lia]. intros _. apply N.neq_0_lt_0, N.pow_nonzero. lia.
  - rewrite (length_pretty_N_go x (Z.to_nat k) EmptyString). simpl. lia.
Qed.

(** [str] accepts exactly the [int]s below [10 ^ 4300] in absolute value. *)
Lemma printable_iff n : printable n ↔ Z.abs n < 10 ^ int_max_str_digits.
Proof. by apply num_digits_le. Qed.

Lemma printable_mono a b : Z.abs a <= Z.abs b → printable b → printable a.
Proof. rewrite !printable_iff. lia. Qed.

Lemma pow2_1075_digits : 2 ^ 1075 < 10 ^ int_max_str_digits.
Proof. vm_compute. reflexivity. Qed.

Lemma printable_small n : Z.abs n < 2 ^ 1075 → printable n.
Proof. rewrite printable_iff. pose proof pow2_1075_digits. lia. Qed.

Lemma format_ints_cases ints :
  (format_ints ints = inr () ∧ Forall printable ints) ∨
  (format_ints ints = inl ValueError ∧ ¬ Forall printable ints).
Proof.
  unfold format_ints. induction ints as [|n ints IH]; [left; by split|].
  cbn [forallb]. destruct (Z.leb_spec (num_digits n) int_max_str_digits) as [Hn|Hn].
  - cbn [andb]. destruct IH as [[-> IH]|[-> IH]].
    + left. split; [done|]. by constructor.
    + right. split; [done|]. by intros [_ Hall]%Forall_cons.
  - right. split; [done|]. intros [Hp _]%Forall_cons. unfold printable in Hp. lia.
Qed.

Lemma format_ints_inr ints : Forall printable ints → format_ints ints = inr ().
Proof. intros H. by destruct (format_ints_cases ints) as [[-> _]|[_ Hno]]. Qed.

Lemma format_ints_printable ints : format_ints ints = inr () → Forall printable ints.
Proof.
  intros H. destruct (format_ints_cases ints) as [[_ ?]|[Hno _]]; [done|congruence].
Qed.

Lemma format_ints_raises ints err : format_ints ints = inl err → err = ValueError.
Proof.
  intros H. destruct (format_ints_cases ints) as [[Hok _]|[Hno _]]; congruence.
Qed.

(** The number of files is a [float] turned into an [int]: it is below
    [2 ^ 1024] in absolute value, and [str] accepts it. *)
Lemma compute_num_files_printable T C N :
  compute_num_files T C = inr N → printable N.
Proof.
  unfold compute_num_files, int_true_divide.
  destruct (C =? 0) eqn:HC0; [done|]. apply Z.eqb_neq in HC0.
  destruct (T =? 0) eqn:HT0.
  { intros [= <-]. by apply printable_small. }
  apply Z.eqb_neq in HT0. cbv zeta.
  set (e := ulp_exponent (Z.abs T) (Z.abs C)).
  set (m := div_half_even (Z.abs T * pow2 (- e)) (Z.abs C * pow2 e)).
  pose proof (pow2_pos e) as Hpe. pose proof (pow2_pos (- e)) as Hpe'.
  assert (0 <= m) as Hm.
  { apply (div_half_even_ge (Z.abs T * pow2 (- e)) (Z.abs C * pow2 e)); nia. }
  destruct (Z.leb_spec (2 ^ 1024) (m * pow2 e)) as [|Hov]; [done|].
  intros [= <-]. apply printable_small.
  enough (Z.abs (math_ceil (mkfloat (Z.sgn T * Z.sgn C * m) e)) < 2 ^ 1024) by lia.
  assert (Z.sgn T * Z.sgn C = 1 ∨ Z.sgn T * Z.sgn C = -1) as [-> | ->]
    by (destruct T, C; cbn; lia).
  - unfold math_ceil; cbn [mant expo]. destruct (Z.leb_spec 0 e) as [He|He].
    + rewrite pow2_nonneg in Hov by done. lia.
    + rewrite pow2_nonpos in Hov by lia.
      assert (0 < 2 ^ (- e)) by (apply Z.pow_pos_nonneg; lia).
      pose proof (Z.div_le_upper_bound (- (1 * m)) (2 ^ (- e)) 0 ltac:(lia) ltac:(lia)).
      pose proof (Z.div_le_lower_bound (- (1 * m)) (2 ^ (- e)) (- m) ltac:(lia) ltac:(nia)).
      lia.
  - unfold math_ceil; cbn [mant expo]. destruct (Z.leb_spec 0 e) as [He|He].
    + rewrite pow2_nonneg in Hov by done. lia.
    + rewrite pow2_nonpos in Hov by lia.
      assert (0 < 2 ^ (- e)) by (apply Z.pow_pos_nonneg; lia).
      pose proof (Z.div_pos (- (-1 * m)) (2 ^ (- e)) ltac:(lia) ltac:(lia)).
      pose proof (Z.div_le_upper_bound (- (-1 * m)) (2 ^ (- e)) m ltac:(lia) ltac:(nia)).
      lia.
Qed.

(** ** Dictionaries *)

Section dicts.
Context {V : Type}.
Implicit Types (d l acc : dict V) (k : string) (v : V).

Lemma dict_get_None d k : k ∉ keys d → dict_get d k = None.
Proof.
  unfold keys. induction d as [|[k' v'] d IH]; [done|]. cbn.
  intros Hk. apply not_elem_of_cons in Hk as [Hne Hk].
  destruct (decide (k' = k)); [congruence|]. by apply IH.
Qed.

Lemma dict_get_is_Some d k : k ∈ keys d → is_Some (dict_get d k).
Proof.
  unfold keys. induction d as [|[k' v'] d IH]; cbn.
  - intros Hk. by apply elem_of_nil in Hk.
  - intros Hk. destruct (decide (k' = k)); [by eexists|].
    apply elem_of_cons in Hk as [->|Hk]; [done|]. by apply IH.
Qed.

Lemma dict_get_Some_elem d k v : dict_get d k = Some v → (k, v) ∈ d.
Proof.
  induction d as [|[k' v'] d IH]; cbn; [done|].
  destruct (decide (k' = k)) as [->|].
  - intros [= ->]. apply elem_of_cons. by left.
  - intros H. apply elem_of_cons. right. by apply IH.
Qed.

Lemma dict_get_elem d k v : NoDup (keys d) → (k, v) ∈ d → dict_get d k = Some v.
Proof.
  unfold keys. induction d as [|[k' v'] d IH]; cbn.
  - intros _ H. by apply elem_of_nil in H.
  - intros Hnd H. apply NoDup_cons in Hnd as [Hfresh Hnd].
    apply elem_of_cons in H as [[= -> ->]|H].
    + by rewrite decide_True.
    + destruct (decide (k' = k)) as [->|]; [|by apply IH].
      exfalso. apply Hfresh. apply list_elem_of_fmap. by exists (k, v).
Qed.

Lemma dict_set_fresh d k v : k ∉ keys d → dict_set d k v = d ++ [(k, v)].
Proof.
  unfold keys. induction d as [|[k' v'] d IH]; cbn; [done|].
  intros Hk. apply not_elem_of_cons in Hk as [Hne Hk].
  destruct (decide (k' = k)); [congruence|]. by rewrite IH.
Qed.

Lemma keys_app d l : keys (d ++ l) = keys d ++ keys l.
Proof. unfold keys. apply fmap_app. Qed.

(** A comprehension over keys that are all present, and fresh for the
    accumulator, appends their records. *)
Lemma dict_comprehension_records (data : dict V) l acc :
  (∀ k v, (k, v) ∈ l → dict_get data k = Some v) →
  NoDup (keys acc ++ keys l) →
  dict_comprehension data (keys l) acc = inr (acc ++ l).
Proof.
  revert acc. induction l as [|[k v] l IH]; intros acc Hget Hnd.
  - cbn. by rewrite app_nil_r.
  - cbn. unfold dict_getitem. rewrite (Hget k v) by (apply elem_of_cons; by left).
    cbn in Hnd. apply NoDup_app in Hnd as (Hacc & Hdisj & Hl).
    rewrite dict_set_fresh.
    2: { intros Hin. apply (Hdisj _ Hin). apply elem_of_cons. by left. }
    rewrite IH.
    + by rewrite <- app_assoc.
    + intros k0 v0 H0. apply Hget. apply elem_of_cons. by right.
    + rewrite keys_app. cbn. rewrite <- app_assoc. cbn.
      apply NoDup_app. split_and!; [done| |done].
      intros x Hx. by apply Hdisj.
Qed.

(** [json.load] yields unique keys, whatever the members of the object. *)
Lemma dict_set_keys d k v :
  keys (dict_set d k v) = if decide (k ∈ keys d) then keys d else keys d ++ [k].
Proof.
  unfold keys. induction d as [|[k' v'] d IH]; cbn.
  - rewrite decide_False; [done|]. apply not_elem_of_nil.
  - destruct (decide (k' = k)) as [->|Hne]; cbn.
    + rewrite decide_True; [done|]. apply elem_of_cons. by left.
    + rewrite IH. destruct (decide (k ∈ d.*1)) as [Hin|Hnin].
      * rewrite decide_True; [done|]. apply elem_of_cons. by right.
      * rewrite decide_False; [done|]. intros [?|?]%elem_of_cons; congruence.
Qed.

Lemma dict_set_NoDup d k v : NoDup (keys d) → NoDup (keys (dict_set d k v)).
Proof.
  intros Hnd. rewrite dict_set_keys. case_decide; [done|].
  apply NoDup_app. split_and!; [done| |apply NoDup_singleton].
  intros x Hx [= ->]%list_elem_of_singleton. done.
Qed.

Lemma dict_of_pairs_NoDup (members : list (string * V)) :
  NoDup (keys (dict_of_pairs members)).
Proof.
  unfold dict_of_pairs.
  assert (NoDup (keys ([] : dict V))) as H by apply NoDup_nil_2.
  revert H. generalize ([] : dict V).
  induction members as [|[k v] ms IH]; intros d Hd; cbn; [done|].
  apply IH. by apply dict_set_NoDup.
Qed.

End dicts.

(** Recording fresh keys in the index appends them, in order. *)
Lemma index_update_fresh (idx : dict Z) (ks : list string) (i : Z) :
  NoDup (keys idx ++ ks) →
  foldl (λ idx key, dict_set idx key i) idx ks = idx ++ ((λ key, (key, i)) <$> ks).
Proof.
  revert idx. induction ks as [|k ks IH]; intros idx Hnd; cbn.
  - by rewrite app_nil_r.
  - apply NoDup_app in Hnd as (Hidx & Hdisj & Hks).
    rewrite dict_set_fresh.
    2: { intros Hin. apply (Hdisj _ Hin). apply elem_of_cons. by left. }
    rewrite IH.
    + by rewrite <- app_assoc.
    + rewrite keys_app. cbn. rewrite <- app_assoc. cbn.
      apply NoDup_app. split_and!; [done| |done].
      intros x Hx. by apply Hdisj.
Qed.

(** ** Slices and chunks *)

Lemma len_nonneg {A} (l : list A) : 0 <= len l.
Proof. unfold len. lia. Qed.

Lemma len_keys {V} (d : dict V) : len (keys d) = len d.
Proof. unfold len, keys. by rewrite length_fmap. Qed.

Lemma positions_fmap {A B} (f : A → B) (l : list A) lo hi :
  f <$> positions l lo hi = positions (f <$> l) lo hi.
Proof. unfold positions. by rewrite fmap_take, fmap_drop. Qed.

Lemma length_positions {A} (l : list A) lo hi :
  0 <= lo -> hi <= len l ->
  length (positions l lo hi) = Z.to_nat (hi - lo).
Proof.
  intros Hlo Hhi. unfold positions, len in *.
  rewrite length_take, length_drop. lia.
Qed.

Lemma lookup_positions {A} (l : list A) lo hi (j : nat) :
  0 <= lo -> Z.of_nat j < hi - lo ->
  positions l lo hi !! j = l !! (Z.to_nat lo + j)%nat.
Proof.
  intros Hlo Hj. unfold positions.
  rewrite lookup_take_lt by lia. apply lookup_drop.
Qed.

(** A slice with bounds inside the list is the run of positions between
    them. *)
Lemma py_slice_positions {A} (l : list A) lo hi :
  0 <= lo -> 0 <= hi <= len l -> py_slice l lo hi = positions l lo hi.
Proof.
  intros Hlo Hhi. unfold py_slice, positions, slice_index.
  destruct (Z.ltb_spec lo 0) as [|_]; [lia|].
  destruct (Z.ltb_spec hi 0) as [|_]; [lia|].
  replace (Z.min hi (len l)) with hi by lia.
  destruct (Z.le_gt_cases lo (len l)) as [Hle|Hgt].
  - by replace (Z.min lo (len l)) with lo by lia.
  - replace (Z.to_nat (hi - Z.min lo (len l))) with 0%nat by lia.
    by replace (Z.to_nat (hi - lo)) with 0%nat by lia.
Qed.

Lemma chunk_keys_of_chunk {V} (data : dict V) C i :
  0 < C -> 0 <= i -> chunk_keys_of data C i = keys (chunk_of data C i).
Proof.
  intros HC Hi. unfold chunk_keys_of, chunk_of. cbv zeta.
  pose proof (len_nonneg data) as HT.
  rewrite py_slice_positions.
  - unfold keys. rewrite positions_fmap. f_equal. lia.
  - nia.
  - rewrite len_keys. nia.
Qed.

Lemma take_positions {A} (l : list A) a b :
  0 <= a <= b ->
  take (Z.to_nat a) l ++ positions l a (Z.min b (len l)) = take (Z.to_nat b) l.
Proof.
  intros Hab. unfold positions, len.
  rewrite take_take_drop.
  destruct (Z.le_gt_cases b (Z.of_nat (length l))) as [Hb|Hb].
  - f_equal. lia.
  - rewrite !take_ge; [done|lia|lia].
Qed.

(** The first [n] chunks, put end to end, are the first [n * C] records. *)
Lemma concat_chunks {V} (data : dict V) C (n : nat) :
  0 < C ->
  concat (chunk_of data C <$> seqZ 0 (Z.of_nat n)) = take (Z.to_nat (Z.of_nat n * C)) data.
Proof.
  intros HC. induction n as [|n IH].
  - done.
  - rewrite seqZ_S, fmap_app, concat_app, IH. cbn [fmap list_fmap concat].
    rewrite app_nil_r. unfold chunk_of.
    rewrite Z.add_0_l.
    replace (Z.of_nat (S n) * C) with ((Z.of_nat n + 1) * C) by lia.
    apply take_positions. nia.
Qed.

Lemma length_chunk_of {V} (data : dict V) C i :
  0 < C -> 0 <= i ->
  Z.of_nat (length (chunk_of data C i)) = Z.max 0 (Z.min ((i + 1) * C) (len data) - i * C).
Proof.
  intros HC Hi. unfold chunk_of.
  rewrite length_positions; [lia|nia|lia].
Qed.

Lemma elem_of_positions {A} (l : list A) lo hi x : x ∈ positions l lo hi → x ∈ l.
Proof.
  unfold positions. intros (j & Hj & _)%elem_of_take.
  rewrite lookup_drop in Hj. by eapply list_elem_of_lookup_2.
Qed.

Lemma chunk_of_get {V} (data : dict V) C i k v :
  NoDup (keys data) → (k, v) ∈ chunk_of data C i → dict_get data k = Some v.
Proof.
  intros Hnd Hin. apply dict_get_elem; [done|]. by eapply elem_of_positions.
Qed.

Lemma keys_index_entries {V} (data : dict V) C i :
  keys (index_entries data C i) = keys (chunk_of data C i).
Proof.
  unfold index_entries, keys. generalize ((chunk_of data C i).*1).
  intros ks. induction ks as [|k ks IH]; [done|]. cbn. by rewrite IH.
Qed.

(** ** The loop *)

Section loop.
Context {V : Type}.
Variables (data : dict V) (output_dir : string) (C : Z).
Hypothesis data_unique : NoDup (keys data).
Hypothesis C_pos : 0 < C.

(** What the loop does over file numbers whose chunks are disjoint and new
    to the index: it writes their shards in order until a write fails, and
    without a failure returns the index extended by their entries. *)
Lemma process_chunks_spec (file_nums : list Z) (index : dict Z) (w : world V) :
  Forall (λ i, 0 <= i) file_nums →
  NoDup (keys index ++ concat ((λ i, keys (chunk_of data C i)) <$> file_nums)) →
  ∃ n : nat,
    (n ≤ length file_nums)%nat ∧
    (process_chunks data output_dir C file_nums index w).1
    = mkworld (can_write w)
        (written w ++ (shard_write data output_dir C <$> take n file_nums)) ∧
    match (process_chunks data output_dir C file_nums index w).2 with
    | inr idx =>
        n = length file_nums ∧
        idx = index ++ concat (index_entries data C <$> file_nums)
    | inl err =>
        ∃ i, file_nums !! n = Some i ∧
             err = OSError (os_path_join output_dir (shard_name i)) ∧
             can_write w (os_path_join output_dir (shard_name i)) = false
    end.
Proof using data_unique C_pos.
  revert index w. induction file_nums as [|i rest IH]; intros index w Hpos Hnd.
  - exists 0%nat. cbn. rewrite !app_nil_r. by destruct w.
  - apply Forall_cons in Hpos as [Hi Hrest].
    cbn [fmap list_fmap concat] in Hnd.
    apply NoDup_app in Hnd as (Hidx & Hdisj & Hchunks).
    apply NoDup_app in Hchunks as (Hchunk & Hdisj' & Hlater).
    cbn [process_chunks]. rewrite chunk_keys_of_chunk by done.
    rewrite (dict_comprehension_records data (chunk_of data C i) []).
    2: { intros k v. by apply chunk_of_get. }
    2: { done. }
    rewrite index_update_fresh.
    2: { apply NoDup_app. split_and!; [done| |done].
         intros x Hx Hx'. apply (Hdisj x Hx). apply elem_of_app. by left. }
    rewrite app_nil_l.
    unfold mbind, io_bind, lift, json_dump_file.
    destruct (can_write w (os_path_join output_dir (shard_name i))) eqn:Hcan.
    + set (w' := mkworld _ _).
      destruct (IH (index ++ ((λ key, (key, i)) <$> keys (chunk_of data C i))) w' Hrest)
        as (n & Hn & Hw & Hr).
      { rewrite keys_app, <- app_assoc.
        fold (index_entries data C i). rewrite keys_index_entries.
        apply NoDup_app. split_and!; [done| |by apply NoDup_app].
        intros x Hx. by apply Hdisj. }
      exists (S n). split; [cbn; lia|]. split.
      * rewrite Hw. unfold w'. cbn. by rewrite <- app_assoc.
      * destruct (process_chunks data output_dir C rest _ w').2 as [err|idx].
        -- exact Hr.
        -- destruct Hr as [-> ->]. split; [done|].
           cbn [fmap list_fmap concat]. by rewrite <- app_assoc.
    + exists 0%nat. split; [lia|]. cbn. rewrite app_nil_r.
      split; [by destruct w|]. by exists i.
Qed.

End loop.

(** ** The whole run *)

Lemma concat_keys {V} (f : Z → dict V) (l : list Z) :
  concat ((λ i, keys (f i)) <$> l) = keys (concat (f <$> l)).
Proof.
  induction l as [|i l IH]; [done|].
  cbn [fmap list_fmap concat]. by rewrite IH, keys_app.
Qed.

Lemma range_nonneg N : Forall (λ i, 0 <= i) (range N).
Proof. apply Forall_seqZ. intros i. lia. Qed.

Lemma range_of_nat N : 0 <= N -> range N = seqZ 0 (Z.of_nat (Z.to_nat N)).
Proof. intros. unfold range. f_equal. lia. Qed.

(** The chunks of a run never share a key. *)
Lemma chunks_disjoint {V} (data : dict V) C N :
  NoDup (keys data) → 0 < C →
  NoDup (concat ((λ i, keys (chunk_of data C i)) <$> range N)).
Proof.
  intros Hnd HC. destruct (Z.le_gt_cases N 0) as [HN|HN].
  - unfold range. rewrite seqZ_nil by done. apply NoDup_nil_2.
  - rewrite concat_keys, range_of_nat, concat_chunks by lia.
    unfold keys. rewrite fmap_take.
    eapply sublist_NoDup; [exact Hnd|apply sublist_take].
Qed.

(** A non-empty input always yields a sample: a key of the input with the
    value the input has for it, at the drawn position when keys are unique. *)
Lemma sample_exists {V} (data : dict V) (rng : nat) :
  data ≠ [] →
  ∃ k v, random_choice rng (keys data) = inr k ∧ dict_getitem data k = inr v ∧
         k ∈ keys data ∧ dict_get data k = Some v ∧
         (NoDup (keys data) → data !! randbelow rng (length data) = Some (k, v)).
Proof.
  intros Hne. unfold random_choice, keys. rewrite length_fmap.
  destruct (decide (length data = 0%nat)) as [H0|H0].
  { by destruct data. }
  assert (randbelow rng (length data) < length data)%nat as Hlt.
  { unfold randbelow. by apply Nat.mod_upper_bound. }
  destruct (lookup_lt_is_Some_2 data _ Hlt) as [[k v] Hkv].
  rewrite list_lookup_fmap, Hkv. cbn.
  assert (k ∈ data.*1) as Hk.
  { apply list_elem_of_fmap. exists (k, v). split; [done|].
    by eapply list_elem_of_lookup_2. }
  destruct (dict_get_is_Some data k Hk) as [v' Hv'].
  exists k, v'. unfold dict_getitem. rewrite Hv'. split_and!; try done.
  intros Hnd. rewrite (dict_get_elem data k v Hnd) in Hv'.
  - by injection Hv' as ->.
  - by eapply list_elem_of_lookup_2.
Qed.

Lemma bind_lift_inr {V A B} (a : A) (f : A → io V B) (w : world V) :
  (lift (inr a) ≫= f) w = f a w.
Proof. reflexivity. Qed.

Lemma bind_lift_inl {V A B} (err : exn) (f : A → io V B) (w : world V) :
  (lift (inl err) ≫= f) w = (w, inl err).
Proof. reflexivity. Qed.

Lemma bind_dump {V B} path (doc : document V) (f : () → io V B) (w : world V) :
  (json_dump_file path doc ≫= f) w =
  if can_write w path
  then f () (mkworld (can_write w) (written w ++ [(path, doc)]))
  else (w, inl (OSError path)).
Proof. unfold mbind, io_bind, json_dump_file. by destruct (can_write w path). Qed.

Lemma bind_run {V A B} (m : io V A) (f : A → io V B) (w : world V) :
  (m ≫= f) w =
  match m w with
  | (w', inl err) => (w', inl err)
  | (w', inr x) => f x w'
  end.
Proof. reflexivity. Qed.

Section whole_run.
Context {V : Type}.
Variables (can : string → bool) (data : dict V) (output_dir : string) (C : Z).
Variables (rng : nat) (N : Z) (k : string) (v : V).
Hypothesis data_unique : NoDup (keys data).
Hypothesis C_pos : 0 < C.
Hypothesis count : compute_num_files (len data) C = inr N.
Hypothesis printed : format_ints [len data; N; C] = inr ().
Hypothesis chosen : random_choice rng (keys data) = inr k.
Hypothesis value : dict_getitem data k = inr v.

(** The writes of a run are the expected ones, in order, up to the first one
    that fails; the run returns the index path exactly when none fails. *)
Lemma run_spec :
  let E := expected_log data output_dir C N (k, v) in
  let r := run can data output_dir C rng in
  ∃ n : nat,
    (n ≤ length E)%nat ∧
    r.1 = mkworld can (take n E) ∧
    match r.2 with
    | inr p => n = length E ∧ p = os_path_join output_dir index_name
    | inl err =>
        ∃ path doc, E !! n = Some (path, doc) ∧ err = OSError path ∧ can path = false
    end.
Proof using data_unique C_pos count printed chosen value.
  intros E r. subst E r. unfold run, split_json_file, expected_log.
  rewrite count, bind_lift_inr, printed, bind_lift_inr, chosen, bind_lift_inr,
    value, bind_lift_inr.
  cbn [dict_set].
  set (doc_w := (os_path_join output_dir doc_name, Indented [(k, v)])).
  set (shards := shard_write data output_dir C <$> range N).
  set (idx_w := (os_path_join output_dir index_name, MinifiedIndex (index_upto data C N))).
  rewrite bind_dump. cbn [can_write written].
  destruct (can (os_path_join output_dir doc_name)) eqn:Hdoc.
  2: { exists 0%nat. cbn. split; [lia|]. split; [done|]. by exists doc_w.1, doc_w.2. }
  rewrite app_nil_l. fold doc_w. rewrite bind_run.
  destruct (process_chunks_spec data output_dir C data_unique C_pos
              (range N) [] (mkworld can [doc_w]) (range_nonneg N))
    as (n & Hn & Hw & Hr).
  { cbn. by apply chunks_disjoint. }
  cbn [can_write written] in Hw, Hr.
  destruct (process_chunks data output_dir C (range N) [] (mkworld can [doc_w]))
    as [w1 [err|idx]]; cbn [fst snd] in Hw, Hr.
  - destruct Hr as (i & Hi & -> & Hcan).
    assert (n < length (range N))%nat as Hlt by (by eapply lookup_lt_Some).
    exists (S n). cbn [length fst snd]. rewrite length_app.
    unfold shards at 1. rewrite length_fmap.
    split; [lia|].
    cbn [take]. rewrite take_app_le by (unfold shards; rewrite length_fmap; lia).
    split.
    + rewrite Hw. unfold shards. by rewrite fmap_take.
    + exists (os_path_join output_dir (shard_name i)), (Minified (chunk_of data C i)).
      split; [|done].
      change ((doc_w :: shards ++ [idx_w]) !! S n) with ((shards ++ [idx_w]) !! n).
      rewrite lookup_app_l.
      * unfold shards. by rewrite list_lookup_fmap, Hi.
      * unfold shards. by rewrite length_fmap.
  - destruct Hr as [-> ->]. rewrite app_nil_l. rewrite take_ge in Hw by done.
    rewrite bind_dump, Hw. cbn [can_write written].
    fold (index_upto data C N). fold idx_w. fold shards.
    destruct (can (os_path_join output_dir index_name)) eqn:Hidx.
    + exists (S (length shards + 1)). cbn [length fst snd]. rewrite length_app. cbn [length].
      split; [lia|]. split; [|done].
      rewrite take_ge by (cbn; rewrite length_app; cbn; lia).
      reflexivity.
    + exists (S (length shards)). cbn [length fst snd]. rewrite length_app. cbn [length].
      split; [lia|]. split.
      * cbn [take]. by rewrite take_app_length.
      * exists idx_w.1, idx_w.2. split; [|done].
        change ((doc_w :: shards ++ [idx_w]) !! S (length shards))
          with ((shards ++ [idx_w]) !! length shards).
        rewrite lookup_app_r by lia. by rewrite Nat.sub_diag.
Qed.

End whole_run.

(** ** Reading a log *)

Lemma shards_of_app {V} (l1 l2 : list (string * document V)) :
  shards_of (l1 ++ l2) = shards_of l1 ++ shards_of l2.
Proof. apply omap_app. Qed.

Lemma shards_of_shard_writes {V} (data : dict V) dir C (l : list Z) :
  shards_of (shard_write data dir C <$> l) = chunk_of data C <$> l.
Proof. induction l as [|i l IH]; [done|]. cbn. by f_equal. Qed.

Lemma shards_of_expected {V} (data : dict V) dir C N kv :
  shards_of (expected_log data dir C N kv) = chunk_of data C <$> range N.
Proof.
  unfold expected_log. change (?x :: ?l) with ([x] ++ l).
  rewrite !shards_of_app, shards_of_shard_writes. cbn. by rewrite app_nil_r.
Qed.

Lemma shards_of_index_write {V} path (idx : dict Z) (j : nat) :
  shards_of (V:=V) (take j [(path, MinifiedIndex idx)]) = [].
Proof. by destruct j as [|[|j]]. Qed.

Lemma shards_of_expected_take {V} (data : dict V) dir C N kv (n : nat) :
  shards_of (take n (expected_log data dir C N kv))
  = take (n - 1) (chunk_of data C <$> range N).
Proof.
  unfold expected_log. destruct n as [|n]; [done|].
  replace (S n - 1)%nat with n by lia.
  cbn [take]. change (shards_of (?x :: ?l)) with (shards_of l).
  by rewrite take_app, shards_of_app, <- fmap_take, shards_of_shard_writes,
    fmap_take, shards_of_index_write, app_nil_r.
Qed.

Lemma indexes_of_expected {V} (data : dict V) dir C N kv :
  indexes_of (expected_log data dir C N kv) = [index_upto data C N].
Proof.
  unfold expected_log, indexes_of. change (?x :: ?l) with ([x] ++ l).
  rewrite !omap_app. cbn.
  assert (omap (λ w : string * document V,
            match w.2 with MinifiedIndex d => Some d | _ => None end)
            (shard_write data dir C <$> range N) = []) as ->; [|done].
  induction (range N) as [|i l IH]; [done|]. cbn. exact IH.
Qed.

Lemma samples_of_expected {V} (data : dict V) dir C N kv :
  samples_of (expected_log data dir C N kv) = [[kv]].
Proof.
  unfold expected_log, samples_of. cbn. f_equal. rewrite omap_app. cbn.
  rewrite app_nil_r.
  induction (range N) as [|i l IH]; [done|]. cbn. exact IH.
Qed.

Lemma lookup_chunks {V} (data : dict V) C N (i : nat) d :
  (chunk_of data C <$> range N) !! i = Some d →
  Z.of_nat i < N ∧ d = chunk_of data C (Z.of_nat i).
Proof.
  rewrite list_lookup_fmap. unfold range.
  destruct (seqZ 0 N !! i) as [j|] eqn:Hj; [|done].
  apply lookup_seqZ in Hj as [-> Hlt]. cbn. intros [= <-].
  split; [done|]. f_equal.
Qed.

Lemma length_range N : Z.of_nat (length (range N)) = Z.max 0 N.
Proof. unfold range. rewrite length_seqZ. lia. Qed.

(** ** Runs that stop before the first write *)

Lemma run_count_error {V} can (data : dict V) dir C rng err :
  compute_num_files (len data) C = inl err →
  run can data dir C rng = (mkworld can [], inl err).
Proof. intros H. unfold run, split_json_file. by rewrite H. Qed.

Lemma run_format_error {V} can (data : dict V) dir C rng N err :
  compute_num_files (len data) C = inr N →
  format_ints [len data; N; C] = inl err →
  run can data dir C rng = (mkworld can [], inl err).
Proof. intros H Hf. unfold run, split_json_file. by rewrite H, bind_lift_inr, Hf. Qed.

Lemma run_no_sample {V} can (data : dict V) dir C rng N :
  compute_num_files (len data) C = inr N →
  format_ints [len data; N; C] = inr () → data = [] →
  run can data dir C rng = (mkworld can [], inl IndexError).
Proof.
  intros H Hf ->. unfold run, split_json_file.
  by rewrite H, bind_lift_inr, Hf, bind_lift_inr.
Qed.

(** The message of line 36 can be printed for an input whose length fits
    and a chunk size that [str] accepts. *)
Lemma format_ints_fits {A} (l : list A) C N :
  len_fits l → printable C → compute_num_files (len l) C = inr N →
  format_ints [len l; N; C] = inr ().
Proof.
  intros Hfits HC Hcount. apply format_ints_inr. repeat constructor; [|by eapply compute_num_files_printable|done].
  apply printable_small. unfold len_fits in Hfits. unfold len in *. lia.
Qed.

Lemma run_empty {V} can dir C rng :
  C ≠ 0 → printable C →
  run can ([] : dict V) dir C rng = (mkworld can [], inl IndexError).
Proof.
  intros HC Hp. apply (run_no_sample _ _ _ _ _ 0); [| |done].
  - change (len []) with 0. rewrite compute_num_files_zero. by destruct (Z.eqb_spec C 0).
  - apply format_ints_inr. repeat constructor; [by apply printable_small..|done].
Qed.

(** ** Paths are distinct *)

Lemma string_app_length (s t : string) :
  String.length (s +:+ t) = (String.length s + String.length t)%nat.
Proof. induction s as [|c s IH]; [done|]. simpl. by rewrite IH. Qed.

Lemma string_app_inj_r (s1 s2 t : string) : s1 +:+ t = s2 +:+ t → s1 = s2.
Proof.
  revert s2. induction s1 as [|c s1 IH]; intros [|c' s2] H.
  - done.
  - apply (f_equal String.length) in H.
    rewrite !string_app_length in H. simpl in H. lia.
  - apply (f_equal String.length) in H.
    rewrite !string_app_length in H. simpl in H. lia.
  - simpl in H. injection H as -> H. f_equal. by apply IH.
Qed.

Lemma os_path_join_inj dir (a b : string) :
  starts_with_sep a = false → starts_with_sep b = false →
  os_path_join dir a = os_path_join dir b → a = b.
Proof.
  intros Ha Hb. unfold os_path_join. rewrite Ha, Hb. cbn [orb].
  case_bool_decide; [done|].
  destruct (ends_with_sep dir); intros Heq.
  - by apply (inj (String.app dir)) in Heq.
  - by do 2 apply (inj (String.app _)) in Heq.
Qed.

(** A decimal numeral does not start with the letter of [index]. *)
Lemma pretty_N_go_head (x : N) (s : string) :
  (∀ t, s ≠ String "i" t) → ∀ t, pretty_N_go x s ≠ String "i" t.
Proof.
  revert s. induction (N.lt_wf_0 x) as [x _ IH]; intros s Hs.
  destruct (decide (x = 0)%N) as [->|Hx].
  - by rewrite pretty_N_go_0.
  - rewrite pretty_N_go_step by lia. apply IH.
    + apply N.div_lt; lia.
    + intros t. unfold pretty_N_char. by repeat case_match.
Qed.

Lemma shard_name_not_index i : shard_name i ≠ index_name.
Proof.
  unfold shard_name, index_name. intros H.
  change "geometry_index.json" with ("geometry_" +:+ "index" +:+ ".json") in H.
  apply (inj (String.app _)), string_app_inj_r in H.
  destruct i as [|p|p]; [done| |done].
  unfold pretty, pretty_Z, pretty, pretty_positive, pretty, pretty_N in H.
  case_decide; [done|].
  assert (∀ t, EmptyString ≠ String "i" t) as Hnil by done.
  exact (pretty_N_go_head (N.pos p) EmptyString Hnil "ndex" H).
Qed.

Lemma shard_name_inj i j : shard_name i = shard_name j → i = j.
Proof.
  unfold shard_name. intros H.
  apply (inj (String.app _)), string_app_inj_r in H. by apply (inj pretty).
Qed.

Lemma shard_name_not_doc i : shard_name i ≠ doc_name.
Proof. done. Qed.

Lemma shard_path_inj dir i j :
  os_path_join dir (shard_name i) = os_path_join dir (shard_name j) → i = j.
Proof. intros H. apply shard_name_inj. by apply os_path_join_inj in H. Qed.

Lemma shard_path_not_index dir i :
  os_path_join dir (shard_name i) ≠ os_path_join dir index_name.
Proof.
  intros H. apply os_path_join_inj in H; [|done..]. by eapply shard_name_not_index.
Qed.

Lemma shard_path_not_doc dir i :
  os_path_join dir (shard_name i) ≠ os_path_join dir doc_name.
Proof. intros H. by apply os_path_join_inj in H. Qed.

Lemma index_path_not_doc dir : os_path_join dir index_name ≠ os_path_join dir doc_name.
Proof. intros H. by apply os_path_join_inj in H. Qed.

(** ** The cases of a run *)

(** A run over unique keys and a positive chunk size either stops before
    its first write, or writes a prefix of the expected log. *)
Lemma run_cases {V} can (data : dict V) dir C rng :
  NoDup (keys data) → 0 < C →
  let r := run can data dir C rng in
  (log_of r = [] ∧ (∃ err, r.2 = inl err) ∧
   ((data = [] ∧ r.2 = inl IndexError) ∨
    (∃ err, compute_num_files (len data) C = inl err ∧ r.2 = inl err) ∨
    (∃ N, compute_num_files (len data) C = inr N ∧
          format_ints [len data; N; C] = inl ValueError ∧ r.2 = inl ValueError))) ∨
  (∃ N k v (n : nat),
     compute_num_files (len data) C = inr N ∧
     k ∈ keys data ∧ dict_get data k = Some v ∧
     data !! randbelow rng (length data) = Some (k, v) ∧
     (n ≤ length (expected_log data dir C N (k, v)))%nat ∧
     r.1 = mkworld can (take n (expected_log data dir C N (k, v))) ∧
     match r.2 with
     | inr p => n = length (expected_log data dir C N (k, v)) ∧
                p = os_path_join dir index_name
     | inl err => ∃ path doc,
         expected_log data dir C N (k, v) !! n = Some (path, doc) ∧
         err = OSError path ∧ can path = false
     end).
Proof.
  intros Hnd HC r.
  destruct (compute_num_files (len data) C) as [err|N] eqn:Hcount.
  { left. subst r. rewrite (run_count_error _ _ _ _ _ _ Hcount).
    split_and!; [done|by eexists|right; left; by eexists]. }
  destruct (format_ints_cases [len data; N; C]) as [[Hf _]|[Hf _]].
  2: { left. subst r. rewrite (run_format_error _ _ _ _ _ _ _ Hcount Hf).
       split_and!; [done|by eexists|right; right; by eexists]. }
  destruct (decide (data = [])) as [Hempty|Hne].
  { left. subst r. rewrite (run_no_sample _ _ _ _ _ _ Hcount Hf Hempty).
    split_and!; [done|by eexists|left; by split]. }
  right. destruct (sample_exists data rng Hne) as (k & v & Hk & Hv & Hin & Hget & Hpos).
  destruct (run_spec can data dir C rng N k v Hnd HC Hcount Hf Hk Hv) as (n & Hn & Hw & Hr).
  exists N, k, v, n. split_and!; auto.
Qed.

Lemma elem_of_expected_shard {V} (data : dict V) dir C N kv path (d : dict V) :
  (path, Minified d) ∈ expected_log data dir C N kv →
  ∃ j, 0 <= j < N ∧ path = os_path_join dir (shard_name j) ∧ d = chunk_of data C j.
Proof.
  unfold expected_log. intros [H|H]%elem_of_cons; [done|].
  apply elem_of_app in H as [H|H].
  - apply list_elem_of_fmap in H as (j & Heq & Hj).
    unfold range in Hj. apply elem_of_seqZ in Hj.
    unfold shard_write in Heq. injection Heq as -> ->.
    exists j. split; [lia|done].
  - by apply list_elem_of_singleton in H.
Qed.

(** ** C4: what a shard holds *)

(** C4. For every input mapping with unique keys and every chunk size
    [C > 0], the shard file [geometry_i.json] written by a run holds exactly
    the records at the ordinal positions [i*C <= j < min ((i+1)*C, T)] of the
    input, in the input's order (and [i] is not negative). *)
Theorem shard_file_holds_its_positions {V} can (data : dict V) dir C rng
    (i : Z) (d : dict V) :
  NoDup (keys data) → 0 < C →
  (os_path_join dir (shard_name i), Minified d) ∈ log_of (run can data dir C rng) →
  0 <= i ∧ d = positions data (i * C) (Z.min ((i + 1) * C) (len data)).
Proof.
  intros Hnd HC Hin.
  destruct (run_cases can data dir C rng Hnd HC)
    as [(Hlog & _)|(N & k & v & n & _ & _ & _ & _ & _ & Hw & _)].
  - rewrite Hlog in Hin. by apply elem_of_nil in Hin.
  - unfold log_of in Hin. rewrite Hw in Hin. cbn in Hin.
    apply elem_of_take in Hin as (j & Hj & _).
    apply list_elem_of_lookup_2, elem_of_expected_shard in Hj as (j' & Hj' & Hpath & ->).
    apply shard_path_inj in Hpath as ->. split; [lia|done].
Qed.

Lemma five_records_unique : NoDup (keys five_records).
Proof. by apply (bool_decide_unpack _). Qed.

Lemma shard_file_holds_its_positions_witness :
  0 <= 1 ∧
  [("c", 3); ("d", 4)]
  = positions five_records (1 * 2) (Z.min ((1 + 1) * 2) (len five_records)).
Proof.
  apply (shard_file_holds_its_positions all_writable five_records "out" 2 0 1).
  - exact five_records_unique.
  - lia.
  - apply (list_elem_of_lookup_2 _ 2%nat). vm_compute. reflexivity.
Defined.

(** A run that returns has written the whole expected log. *)
Lemma run_returns {V} can (data : dict V) dir C rng p :
  NoDup (keys data) → 0 < C →
  (run can data dir C rng).2 = inr p →
  ∃ N k v,
    compute_num_files (len data) C = inr N ∧
    k ∈ keys data ∧ dict_get data k = Some v ∧
    data !! randbelow rng (length data) = Some (k, v) ∧
    log_of (run can data dir C rng) = expected_log data dir C N (k, v) ∧
    p = os_path_join dir index_name.
Proof.
  intros Hnd HC Hret.
  destruct (run_cases can data dir C rng Hnd HC)
    as [(_ & [err Herr] & _)|(N & k & v & n & Hcount & Hk & Hv & Hpos & Hn & Hw & Hr)].
  - rewrite Hret in Herr. done.
  - rewrite Hret in Hr. destruct Hr as [-> ->].
    exists N, k, v. split_and!; try done.
    unfold log_of. rewrite Hw. cbn. by rewrite take_ge.
Qed.

(** ** The sizes of the shards that exist *)

(** For every input with [T >= 1] records (unique keys, a length that fits)
    and every chunk size [C > 0], in a run that returns and has written a
    shard, every shard but the last holds exactly [C] records, and the last
    of the [N] shards holds [T - C*(N-1)] records, a number between [1] and
    [C]; [N], the number of shards, is then the ceiling of [T / C].  Whether
    there is a shard at all is another matter: see
    [last_shard_exists_in_range] and the run at chunk size [2 ^ 1080]. *)
Theorem shard_sizes {V} can (data : dict V) dir C rng p (i : nat) (d : dict V) :
  NoDup (keys data) → len_fits data → 1 <= len data → 0 < C →
  (run can data dir C rng).2 = inr p →
  shards_of (log_of (run can data dir C rng)) !! i = Some d →
  let N := len (shards_of (log_of (run can data dir C rng))) in
  N = ceil_div (len data) C ∧
  (Z.of_nat i + 1 < N → len d = C) ∧
  (Z.of_nat i + 1 = N → len d = len data - C * (N - 1) ∧ 1 <= len d <= C).
Proof.
  intros Hnd Hfits HT HC Hret Hd N.
  destruct (run_returns can data dir C rng p Hnd HC Hret)
    as (N' & k & v & Hcount & _ & _ & _ & Hlog & _).
  subst N. rewrite Hlog, shards_of_expected in *.
  assert (len (chunk_of data C <$> range N') = Z.max 0 N') as ->.
  { unfold len. by rewrite length_fmap, length_range. }
  apply lookup_chunks in Hd as [Hi ->].
  destruct (compute_num_files_pos (len data) C ltac:(unfold len_fits in Hfits; lia) HC)
    as (N'' & Hcount' & _ & HN).
  rewrite Hcount in Hcount'. injection Hcount' as <-.
  destruct HN as [->| ->]; [lia|].
  destruct (ceil_div_spec (len data) C ltac:(lia) HC) as (HK0 & HK1 & HK2).
  set (K := ceil_div (len data) C) in *.
  assert (len (chunk_of data C (Z.of_nat i))
          = Z.max 0 (Z.min ((Z.of_nat i + 1) * C) (len data) - Z.of_nat i * C)) as ->.
  { apply length_chunk_of; lia. }
  replace (Z.max 0 K) with K by lia.
  split_and!; [done|intros Hcase..].
  - assert ((Z.of_nat i + 1) * C <= (K - 1) * C) by nia. lia.
  - rewrite Hcase. lia.
Qed.

Lemma shard_sizes_witness :
  let N := len (shards_of (log_of (run all_writable five_records "out" 2 0))) in
  N = ceil_div (len five_records) 2 ∧
  (Z.of_nat 2 + 1 < N → len [("e", 5)] = 2) ∧
  (Z.of_nat 2 + 1 = N →
   len [("e", 5)] = len five_records - 2 * (N - 1) ∧ 1 <= len [("e", 5)] <= 2).
Proof.
  apply (shard_sizes all_writable five_records "out" 2 0 "out/geometry_index.json").
  - exact five_records_unique.
  - unfold len_fits. vm_compute. reflexivity.
  - vm_compute. discriminate.
  - lia.
  - vm_compute. reflexivity.
  - vm_compute. reflexivity.
Defined.

(** ** The log as a frame *)

(** What is already in the log has no influence on what the loop does: it
    is only carried along. *)
Lemma process_chunks_frame {V} (data : dict V) dir C file_nums index can log0 log :
  process_chunks data dir C file_nums index (mkworld can (log0 ++ log))
  = let r := process_chunks data dir C file_nums index (mkworld can log) in
    (mkworld can (log0 ++ written r.1), r.2).
Proof.
  revert index log. induction file_nums as [|i rest IH]; intros index log; [done|].
  cbn [process_chunks]. rewrite !bind_run. unfold lift.
  destruct (dict_comprehension data (chunk_keys_of data C i) []) as [err|chunk]; [done|].
  rewrite !bind_dump. cbn [can_write written].
  destruct (can (os_path_join dir (shard_name i))); [|done].
  rewrite <- app_assoc. apply IH.
Qed.

Lemma process_chunks_can {V} (data : dict V) dir C file_nums index (w : world V) :
  can_write (process_chunks data dir C file_nums index w).1 = can_write w.
Proof.
  revert index w. induction file_nums as [|i rest IH]; intros index w; [done|].
  cbn [process_chunks]. rewrite !bind_run. unfold lift.
  destruct (dict_comprehension data (chunk_keys_of data C i) []) as [err|chunk]; [done|].
  rewrite bind_dump.
  destruct (can_write w (os_path_join dir (shard_name i))); [|done].
  by rewrite IH.
Qed.

Lemma shards_and_index_frame {V} (data : dict V) dir C N can log0 :
  shards_and_index data dir C N (mkworld can log0)
  = let r := shards_and_index data dir C N (mkworld can []) in
    (mkworld can (log0 ++ written r.1), r.2).
Proof.
  unfold shards_and_index. rewrite !bind_run.
  rewrite <- (app_nil_r log0) at 1. rewrite process_chunks_frame. cbv zeta.
  pose proof (process_chunks_can data dir C (range N) [] (mkworld can [])) as Hcan.
  destruct (process_chunks data dir C (range N) [] (mkworld can [])) as [[can' log] [err|idx]];
    cbn in Hcan; subst can'; cbn [fst snd written]; [done|].
  rewrite !bind_dump. cbn [can_write written].
  destruct (can (os_path_join dir index_name)); [|done].
  cbn. by rewrite app_assoc.
Qed.

(** The run, step by step: the four ways to stop before the first write,
    and then the sample document followed by the shards and the index. *)
Lemma run_shape {V} can (data : dict V) dir C rng :
  run can data dir C rng =
  match compute_num_files (len data) C with
  | inl err => (mkworld can [], inl err)
  | inr N =>
    match format_ints [len data; N; C] with
    | inl err => (mkworld can [], inl err)
    | inr _ =>
      match random_choice rng (keys data) with
      | inl err => (mkworld can [], inl err)
      | inr k =>
        match dict_getitem data k with
        | inl err => (mkworld can [], inl err)
        | inr v =>
          if can (os_path_join dir doc_name)
          then let r := shards_and_index data dir C N (mkworld can []) in
               (mkworld can ((os_path_join dir doc_name, Indented [(k, v)])
                             :: written r.1),
                r.2)
          else (mkworld can [], inl (OSError (os_path_join dir doc_name)))
        end
      end
    end
  end.
Proof.
  unfold run, split_json_file. rewrite bind_run. unfold lift at 1.
  destruct (compute_num_files (len data) C) as [err|N]; [done|].
  rewrite bind_run. unfold lift at 1.
  destruct (format_ints [len data; N; C]) as [err|[]]; [done|].
  rewrite bind_run. unfold lift at 1.
  destruct (random_choice rng (keys data)) as [err|k]; [done|].
  rewrite bind_run. unfold lift at 1.
  destruct (dict_getitem data k) as [err|v]; [done|].
  rewrite bind_dump. cbn [can_write written dict_set app].
  destruct (can (os_path_join dir doc_name)); [|done].
  exact (shards_and_index_frame data dir C N can [_]).
Qed.

(** After the sample, no indented document is written any more. *)
Lemma process_chunks_not_indented {V} (data : dict V) dir C file_nums index can :
  Forall not_indented
    (written (process_chunks data dir C file_nums index (mkworld can [])).1).
Proof.
  revert index. induction file_nums as [|i rest IH]; intros index; [by constructor|].
  cbn [process_chunks]. rewrite !bind_run. unfold lift.
  destruct (dict_comprehension data (chunk_keys_of data C i) []) as [err|chunk];
    [by constructor|].
  rewrite bind_dump. cbn [can_write written app].
  destruct (can (os_path_join dir (shard_name i))); [|by constructor].
  rewrite <- (app_nil_r [_]), process_chunks_frame. cbn.
  constructor; [done|apply IH].
Qed.

Lemma shards_and_index_not_indented {V} (data : dict V) dir C N can :
  Forall not_indented (written (shards_and_index data dir C N (mkworld can [])).1).
Proof.
  unfold shards_and_index. rewrite bind_run.
  pose proof (process_chunks_not_indented data dir C (range N) [] can) as Hlog.
  pose proof (process_chunks_can data dir C (range N) [] (mkworld can [])) as Hcan.
  destruct (process_chunks data dir C (range N) [] (mkworld can [])) as [[can' log] [err|idx]];
    cbn in Hcan, Hlog; subst can'; [done|].
  rewrite bind_dump. cbn [can_write written].
  destruct (can (os_path_join dir index_name)); [|done].
  cbn. apply Forall_app. split; [done|]. by repeat constructor.
Qed.

Lemma samples_of_not_indented {V} (log : list (string * document V)) :
  Forall not_indented log → samples_of log = [].
Proof.
  induction 1 as [|[path doc] log Hw _ IH]; [done|].
  unfold samples_of in *. cbn. unfold not_indented in Hw. cbn in Hw.
  by destruct doc.
Qed.

(** A returning run ends with the write of the index file it returns. *)
Lemma shards_and_index_returns {V} (data : dict V) dir C N can p :
  (shards_and_index data dir C N (mkworld can [])).2 = inr p →
  p = os_path_join dir index_name ∧
  ∃ log idx, written (shards_and_index data dir C N (mkworld can [])).1
             = log ++ [(p, MinifiedIndex idx)].
Proof.
  unfold shards_and_index. rewrite bind_run.
  pose proof (process_chunks_can data dir C (range N) [] (mkworld can [])) as Hcan.
  destruct (process_chunks data dir C (range N) [] (mkworld can [])) as [[can' log] [err|idx]];
    cbn in Hcan; subst can'; [done|].
  rewrite bind_dump. cbn [can_write written].
  destruct (can (os_path_join dir index_name)); [|done].
  cbn. intros [= <-]. split; [done|]. by exists log, idx.
Qed.

(** ** C9: the returned path *)

(** C9. Every run that completes without failure returns the path of the
    index file, the output directory joined with [geometry_index.json], and
    the write of that file is the last thing it did. *)
Theorem returns_index_path {V} can (data : dict V) dir C rng p :
  (run can data dir C rng).2 = inr p →
  p = os_path_join dir index_name ∧
  ∃ idx, last (log_of (run can data dir C rng)) = Some (p, MinifiedIndex idx).
Proof.
  rewrite run_shape.
  destruct (compute_num_files (len data) C) as [err|N]; [done|].
  destruct (format_ints [len data; N; C]) as [err|[]]; [done|].
  destruct (random_choice rng (keys data)) as [err|k]; [done|].
  destruct (dict_getitem data k) as [err|v]; [done|].
  destruct (can (os_path_join dir doc_name)); [|done].
  cbn [fst snd]. intros Hret.
  apply shards_and_index_returns in Hret as (-> & log & idx & Hlog).
  split; [done|]. exists idx. unfold log_of. cbn [fst written]. rewrite Hlog.
  by rewrite app_comm_cons, last_snoc.
Qed.

Lemma returns_index_path_witness :
  "out/geometry_index.json" = os_path_join "out" index_name ∧
  ∃ idx, last (log_of (run all_writable five_records "out" 2 0))
         = Some ("out/geometry_index.json", MinifiedIndex idx).
Proof.
  apply (returns_index_path all_writable five_records "out" 2 0).
  vm_compute. reflexivity.
Defined.

(** The count is computed without error for every non-zero chunk size. *)
Lemma compute_num_files_total {A} (l : list A) C :
  len_fits l → C ≠ 0 → ∃ N, compute_num_files (len l) C = inr N.
Proof.
  intros Hfits HC. unfold len_fits in Hfits. pose proof (len_nonneg l) as H0.
  destruct (decide (len l = 0)) as [->|HT].
  { rewrite compute_num_files_zero. destruct (Z.eqb_spec C 0); [done|by eexists]. }
  destruct (Z.lt_total C 0) as [Hneg|[?|Hpos]]; [|done|].
  - destruct (compute_num_files_neg (len l) C ltac:(lia) Hneg) as (N & HN & _). by exists N.
  - destruct (compute_num_files_pos (len l) C ltac:(lia) Hpos) as (N & HN & _). by exists N.
Qed.

(** ** C7: the sample document *)

(** C7. For every input mapping with [T >= 1] records (and a length that
    fits), whenever [doc.json] can be written and the chunk size is not zero
    and has no more digits than the message of line 36 can show, a run
    writes [doc.json] first, it is the only sample document written, and it
    holds exactly one key-value pair: a key of the input with the value the
    input has for that key. *)
Theorem sample_document {V} can (data : dict V) dir C rng :
  data ≠ [] → len_fits data → C ≠ 0 → printable C →
  can (os_path_join dir doc_name) = true →
  ∃ k v,
    head (log_of (run can data dir C rng))
    = Some (os_path_join dir doc_name, Indented [(k, v)]) ∧
    samples_of (log_of (run can data dir C rng)) = [[(k, v)]] ∧
    k ∈ keys data ∧ dict_get data k = Some v.
Proof.
  intros Hne Hfits HC Hp Hdoc. rewrite run_shape.
  destruct (compute_num_files_total data C Hfits HC) as [N HN].
  rewrite HN, (format_ints_fits data C N Hfits Hp HN).
  destruct (sample_exists data rng Hne) as (k & v & -> & -> & Hk & Hv & _).
  rewrite Hdoc. exists k, v. unfold log_of. cbn [fst written head].
  split_and!; [done| |done|done].
  change (samples_of (?w :: ?l)) with ([(k, v)] :: samples_of l).
  by rewrite samples_of_not_indented by apply shards_and_index_not_indented.
Qed.

Lemma sample_document_witness :
  ∃ k v,
    head (log_of (run all_writable five_records "out" 2 3))
    = Some (os_path_join "out" doc_name, Indented [(k, v)]) ∧
    samples_of (log_of (run all_writable five_records "out" 2 3)) = [[(k, v)]] ∧
    k ∈ keys five_records ∧ dict_get five_records k = Some v.
Proof.
  apply (sample_document all_writable five_records "out" 2 3).
  - discriminate.
  - unfold len_fits. vm_compute. reflexivity.
  - lia.
  - vm_compute. discriminate.
  - reflexivity.
Defined.

(** ** C10: the order of the writes *)

Lemma expected_paths {V} (data : dict V) dir C N kv :
  (expected_log data dir C N kv).*1
  = os_path_join dir doc_name
    :: ((λ i, os_path_join dir (shard_name i)) <$> range N)
    ++ [os_path_join dir index_name].
Proof.
  unfold expected_log. cbn [fmap list_fmap fst]. f_equal.
  rewrite fmap_app. f_equal.
  induction (range N) as [|i l IH]; [done|]. cbn. by f_equal.
Qed.

Lemma expected_paths_NoDup dir N :
  NoDup (os_path_join dir doc_name
         :: ((λ i, os_path_join dir (shard_name i)) <$> range N)
         ++ [os_path_join dir index_name]).
Proof.
  apply NoDup_cons. split.
  - intros [H|H]%elem_of_app.
    + apply list_elem_of_fmap in H as (i & Hi & _). by eapply shard_path_not_doc.
    + apply list_elem_of_singleton in H. by eapply index_path_not_doc.
  - apply NoDup_app. split_and!.
    + apply NoDup_fmap_2_strong; [|apply NoDup_seqZ].
      intros i j _ _. apply shard_path_inj.
    + intros path (i & -> & _)%list_elem_of_fmap Hidx%list_elem_of_singleton.
      by eapply shard_path_not_index.
    + apply NoDup_singleton.
Qed.




(** ** C5: the empty input *)

(** C5 as the specification states it does not hold at the empty object with
    chunk size 100: it is not the case that no shard is written, an index
    file with the empty object is written, and sampling fails.  No index file
    is written. *)
Lemma empty_input_writes_no_index :
  ¬ (let r := run all_writable ([] : dict Z) "out" 100 0 in
     shards_of (log_of r) = [] ∧
     (∃ path, (path, MinifiedIndex []) ∈ log_of r) ∧
     r.2 = inl IndexError).
Proof.
  cbv zeta. rewrite run_empty; [|done|by apply printable_small].
  intros (_ & [path Hin] & _). by apply elem_of_nil in Hin.
Qed.

(** C5, amended. For the empty input and every chunk size [C > 0] the run
    fails having written nothing: no shard file, and no index file either.
    It fails in the sampling step, with [IndexError] (the empty-input
    error), whenever the chunk size has no more digits than the message of
    line 36 can show. *)
Theorem empty_input_fails_before_writing {V} can dir C rng :
  0 < C →
  let r := run can ([] : dict V) dir C rng in
  (∃ err, r.2 = inl err) ∧
  log_of r = [] ∧ shards_of (log_of r) = [] ∧ indexes_of (log_of r) = [] ∧
  (printable C → r.2 = inl IndexError).
Proof.
  intros HC. cbv zeta.
  assert (compute_num_files (len ([] : dict V)) C = inr 0) as Hcount.
  { change (len []) with 0. rewrite compute_num_files_zero.
    destruct (Z.eqb_spec C 0); [lia|done]. }
  destruct (format_ints_cases [len ([] : dict V); 0; C]) as [[Hf _]|[Hf _]].
  - rewrite (run_no_sample can [] dir C rng 0 Hcount Hf eq_refl).
    split_and!; [by eexists|done..].
  - rewrite (run_format_error can [] dir C rng 0 _ Hcount Hf).
    split_and!; [by eexists|done..|].
    intros Hp. rewrite format_ints_inr in Hf; [done|].
    repeat constructor; [by apply printable_small..|done].
Qed.

Lemma empty_input_fails_before_writing_witness :
  let r := run all_writable ([] : dict Z) "out" 100 0 in
  (∃ err, r.2 = inl err) ∧
  log_of r = [] ∧ shards_of (log_of r) = [] ∧ indexes_of (log_of r) = [] ∧
  (printable 100 → r.2 = inl IndexError).
Proof. apply (empty_input_fails_before_writing all_writable "out" 100 0). lia. Defined.

(** ** C6: chunk sizes that are not positive *)





(** ** C8: running twice *)

Lemma last_write_snoc {V} path (log : list (string * document V)) w :
  last_write path (log ++ [w])
  = if decide (w.1 = path) then Some w.2 else last_write path log.
Proof.
  unfold last_write. rewrite omap_app. cbn [omap list_omap].
  destruct (decide (w.1 = path)).
  - apply last_snoc.
  - by rewrite app_nil_r.
Qed.

Lemma last_write_cons_ne {V} path (log : list (string * document V)) w :
  w.1 ≠ path → last_write path (w :: log) = last_write path log.
Proof. intros Hne. unfold last_write. cbn [omap list_omap]. by rewrite decide_False. Qed.

(** The last write to a path decides its content. *)
Lemma lookup_fs_apply {V} (E : json_encoder V) fs (log : list (string * document V)) path :
  fs_apply E fs log !! path
  = match last_write path log with
    | Some doc => Some (render E doc)
    | None => fs !! path
    end.
Proof.
  induction log as [|w log IH] using rev_ind; [done|].
  unfold fs_apply in *. rewrite foldl_app. cbn [foldl].
  rewrite last_write_snoc. destruct (decide (w.1 = path)) as [<-|Hne].
  - by rewrite lookup_insert_eq.
  - by rewrite lookup_insert_ne.
Qed.

(** Two runs that differ only in the random draw write the same files after
    the sample document, and end the same way. *)
Lemma run_draw_independent {V} can (data : dict V) dir C rng1 rng2 :
  (run can data dir C rng1).2 = (run can data dir C rng2).2 ∧
  ∀ path, path ≠ os_path_join dir doc_name →
    last_write path (log_of (run can data dir C rng1))
    = last_write path (log_of (run can data dir C rng2)).
Proof.
  rewrite !run_shape.
  destruct (compute_num_files (len data) C) as [err|N]; [done|].
  destruct (format_ints [len data; N; C]) as [err|[]]; [done|].
  destruct (decide (data = [])) as [->|Hne]; [done|].
  destruct (sample_exists data rng1 Hne) as (k1 & v1 & -> & -> & _).
  destruct (sample_exists data rng2 Hne) as (k2 & v2 & -> & -> & _).
  destruct (can (os_path_join dir doc_name)); [|done].
  split; [done|]. intros path Hpath. unfold log_of. cbn [fst written].
  by rewrite !last_write_cons_ne.
Qed.

(** C8. For every input and chunk size, two runs on the same input and
    chunk size, whatever their random draws, leave byte-identical content in
    every file other than [doc.json], shard files and index file included:
    whether both start from the same files, or the second run comes after the
    first. *)
Theorem rerun_leaves_same_bytes {V} (E : json_encoder V) (fs : gmap string string)
    can (data : dict V) dir C rng1 rng2 path :
  path ≠ os_path_join dir doc_name →
  let log1 := log_of (run can data dir C rng1) in
  let log2 := log_of (run can data dir C rng2) in
  fs_apply E fs log1 !! path = fs_apply E fs log2 !! path ∧
  fs_apply E (fs_apply E fs log1) log2 !! path = fs_apply E fs log1 !! path.
Proof.
  intros Hpath log1 log2.
  destruct (run_draw_independent can data dir C rng1 rng2) as [_ Hlast].
  specialize (Hlast path Hpath). fold log1 log2 in Hlast.
  rewrite !lookup_fs_apply, Hlast.
  by destruct (last_write path log2).
Qed.

Lemma rerun_leaves_same_bytes_witness :
  let log1 := log_of (run all_writable five_records "out" 2 0) in
  let log2 := log_of (run all_writable five_records "out" 2 3) in
  fs_apply int_encoder ∅ log1 !! "out/geometry_1.json"
  = fs_apply int_encoder ∅ log2 !! "out/geometry_1.json" ∧
  fs_apply int_encoder (fs_apply int_encoder ∅ log1) log2 !! "out/geometry_1.json"
  = fs_apply int_encoder ∅ log1 !! "out/geometry_1.json".
Proof.
  apply (rerun_leaves_same_bytes int_encoder ∅ all_writable five_records "out" 2 0 3).
  discriminate.
Defined.

(** ** C1 and C2: the partition and the number of shards *)

Lemma elem_of_concat_lookup {A} (x : A) (ls : list (list A)) :
  x ∈ concat ls → ∃ (i : nat) l, ls !! i = Some l ∧ x ∈ l.
Proof.
  induction ls as [|l ls IH]; cbn.
  - intros H. by apply elem_of_nil in H.
  - intros [H|H]%elem_of_app.
    + by exists 0%nat, l.
    + destruct (IH H) as (i & l' & Hi & Hx). by exists (S i), l'.
Qed.

Lemma concat_lookup_unique {A} (x : A) (ls : list (list A)) (i j : nat) l l' :
  NoDup (concat ls) →
  ls !! i = Some l → x ∈ l → ls !! j = Some l' → x ∈ l' → i = j.
Proof.
  revert i j. induction ls as [|l0 ls IH]; intros i j Hnd Hi Hx Hj Hx'; [done|].
  cbn in Hnd. apply NoDup_app in Hnd as (_ & Hdisj & Hnd).
  assert (∀ (m : nat) l1, ls !! m = Some l1 → x ∈ l1 → x ∈ concat ls) as Hlater.
  { clear. induction ls as [|l2 ls IH]; intros m l1 Hm Hx; [done|].
    cbn. apply elem_of_app. destruct m as [|m].
    - left. by injection Hm as ->.
    - right. by eapply IH. }
  destruct i as [|i], j as [|j]; cbn in Hi, Hj.
  - done.
  - injection Hi as ->. exfalso. apply (Hdisj x Hx). by eapply Hlater.
  - injection Hj as ->. exfalso. apply (Hdisj x Hx'). by eapply Hlater.
  - f_equal. by eapply IH.
Qed.

(** With every path writable, a run over a non-empty input returns, when
    the chunk size is one that the message of line 36 can show. *)
Lemma run_completes {V} can (data : dict V) dir C rng :
  NoDup (keys data) → data ≠ [] → len_fits data → 0 < C → printable C →
  (∀ path, can path = true) →
  (run can data dir C rng).2 = inr (os_path_join dir index_name).
Proof.
  intros Hnd Hne Hfits HC Hp Hcan.
  destruct (run_cases can data dir C rng Hnd HC)
    as [(_ & _ & [[? _]|[(err & Herr & _)|(N & HN & Hf & _)]])
       |(N & k & v & n & _ & _ & _ & _ & _ & _ & Hr)].
  - done.
  - destruct (compute_num_files_total data C Hfits ltac:(lia)) as [N HN]. congruence.
  - by rewrite (format_ints_fits data C N Hfits Hp HN) in Hf.
  - destruct (run can data dir C rng).2 as [err|p].
    + destruct Hr as (path & doc & _ & _ & Hno). by rewrite Hcan in Hno.
    + by destruct Hr as [_ ->].
Qed.

(** Below [2 ^ 1075] the number of shards is the exact ceiling of [T / C],
    for the empty input too, when no write fails. *)
Lemma shard_count_in_range {V} can (data : dict V) dir C rng :
  NoDup (keys data) → len_fits data → 0 < C < 2 ^ 1075 →
  (∀ path, can path = true) →
  len (shards_of (log_of (run can data dir C rng))) = ceil_div (len data) C.
Proof.
  intros Hnd Hfits [HC HCsmall] Hcan.
  destruct (decide (data = [])) as [->|Hne].
  { rewrite run_empty by (lia || apply printable_small; lia).
    unfold ceil_div. change (len []) with 0.
    rewrite Z.div_small by lia. done. }
  pose proof (run_completes can data dir C rng Hnd Hne Hfits HC
                ltac:(apply printable_small; lia) Hcan) as Hret.
  destruct (run_returns can data dir C rng _ Hnd HC Hret)
    as (N & k & v & Hcount & Hk & _ & _ & Hlog & _).
  rewrite Hlog, shards_of_expected. unfold len at 1. rewrite length_fmap, length_range.
  assert (0 < len data) as HT.
  { destruct data; [done|]. unfold len. cbn. lia. }
  destruct (compute_num_files_pos (len data) C ltac:(unfold len_fits in Hfits; lia) HC)
    as (N' & Hcount' & Hexact & _).
  rewrite Hcount in Hcount'. injection Hcount' as <-.
  rewrite (Hexact HCsmall).
  destruct (ceil_div_spec (len data) C HT HC) as (HK & _). lia.
Qed.

(** Below [2 ^ 1075] a returning run over a non-empty input has a last
    shard. *)
Lemma last_shard_exists_in_range {V} can (data : dict V) dir C rng p :
  NoDup (keys data) → len_fits data → 0 < C < 2 ^ 1075 →
  (run can data dir C rng).2 = inr p →
  is_Some (last (shards_of (log_of (run can data dir C rng)))).
Proof.
  intros Hnd Hfits [HC HCsmall] Hret.
  destruct (run_returns can data dir C rng p Hnd HC Hret)
    as (N & k & v & Hcount & Hk & _ & _ & Hlog & _).
  rewrite Hlog, shards_of_expected.
  assert (0 < len data) as HT.
  { destruct data; [by apply elem_of_nil in Hk|]. unfold len. cbn. lia. }
  destruct (compute_num_files_pos (len data) C ltac:(unfold len_fits in Hfits; lia) HC)
    as (N' & Hcount' & Hexact & _).
  rewrite Hcount in Hcount'. injection Hcount' as <-.
  destruct (ceil_div_spec (len data) C HT HC) as (HK & _).
  rewrite <- (Hexact HCsmall) in HK.
  pose proof (length_range N) as Hlen.
  destruct (chunk_of data C <$> range N) as [|d l] eqn:Hl using rev_ind.
  - apply (f_equal length) in Hl. rewrite length_fmap in Hl. cbn in Hl. lia.
  - rewrite last_snoc. by eexists.
Qed.

(** Below [2 ^ 1075] the shards of a returning run partition the keys of the
    input, in order, and the index sends every key to the number of the one
    shard that holds it. *)
Lemma keys_partition_in_range {V} can (data : dict V) dir C rng p :
  NoDup (keys data) → len_fits data → 0 < C < 2 ^ 1075 →
  (run can data dir C rng).2 = inr p →
  let shards := shards_of (log_of (run can data dir C rng)) in
  concat (keys <$> shards) = keys data ∧
  ∃ idx, indexes_of (log_of (run can data dir C rng)) = [idx] ∧
    keys idx = keys data ∧
    ∀ k, k ∈ keys data →
      ∃ (i : nat) d, shards !! i = Some d ∧ k ∈ keys d ∧
        dict_get idx k = Some (Z.of_nat i) ∧
        ∀ (j : nat) d', shards !! j = Some d' → k ∈ keys d' → j = i.
Proof.
  intros Hnd Hfits [HC HCsmall] Hret shards.
  destruct (run_returns can data dir C rng p Hnd HC Hret)
    as (N & k0 & v0 & Hcount & Hk0 & _ & _ & Hlog & _).
  subst shards. rewrite Hlog, shards_of_expected, indexes_of_expected.
  assert (0 < len data) as HT.
  { destruct data; [by apply elem_of_nil in Hk0|]. unfold len. cbn. lia. }
  destruct (compute_num_files_pos (len data) C ltac:(unfold len_fits in Hfits; lia) HC)
    as (N' & Hcount' & Hexact & _).
  rewrite Hcount in Hcount'. injection Hcount' as <-.
  specialize (Hexact HCsmall).
  destruct (ceil_div_spec (len data) C HT HC) as (HK0 & HK1 & HK2).
  rewrite <- Hexact in HK0, HK1, HK2.
  assert (concat (keys <$> (chunk_of data C <$> range N)) = keys data) as Hcover.
  { rewrite <- list_fmap_compose.
    change (keys ∘ chunk_of data C) with (λ i, keys (chunk_of data C i)).
    rewrite concat_keys, range_of_nat, concat_chunks by lia.
    rewrite take_ge; [done|]. unfold len in HK2. nia. }
  assert (keys (index_upto data C N) = keys data) as Hidx.
  { rewrite <- Hcover. unfold index_upto. rewrite <- list_fmap_compose.
    generalize (range N). intros l. induction l as [|i l IH]; [done|].
    cbn [fmap list_fmap concat]. rewrite keys_app, IH. f_equal.
    apply keys_index_entries. }
  split; [done|]. exists (index_upto data C N). split_and!; [done|done|].
  intros k Hk. rewrite <- Hcover in Hk.
  destruct (elem_of_concat_lookup _ _ Hk) as (i & ks & Hi & Hks).
  rewrite list_lookup_fmap in Hi.
  destruct ((chunk_of data C <$> range N) !! i) as [d|] eqn:Hd; [|done].
  injection Hi as <-. exists i, d. split_and!; [done|done| |].
  - apply dict_get_elem; [by rewrite Hidx|].
    apply lookup_chunks in Hd as [HiN ->].
    unfold index_upto. clear -HiN Hks.
    assert (Z.of_nat i ∈ range N) as Hrange.
    { unfold range. apply elem_of_seqZ. lia. }
    revert Hrange. generalize (range N). intros l Hl.
    induction l as [|j l IH]; [by apply elem_of_nil in Hl|].
    cbn [fmap list_fmap concat]. apply elem_of_app.
    apply elem_of_cons in Hl as [<-|Hl].
    + left. unfold index_entries. apply list_elem_of_fmap. by exists k.
    + right. by apply IH.
  - intros j d' Hj Hkj.
    eapply (concat_lookup_unique k (keys <$> (chunk_of data C <$> range N))).
    + by rewrite Hcover.
    + rewrite list_lookup_fmap, Hj. done.
    + done.
    + rewrite list_lookup_fmap, Hd. done.
    + done.
Qed.

(** C2. The number of shard files is not [ceil (T / C)] for huge chunk
    sizes: with one record and chunk size [2 ^ 1080] the quotient
    [1 / 2 ^ 1080] underflows to [0.0], so the run computes zero files and
    writes no shard, where [ceil (T / C)] is [1]. *)
Theorem huge_chunk_size_writes_no_shard :
  let r := run all_writable one_record "out" (2 ^ 1080) 0 in
  compute_num_files (len one_record) (2 ^ 1080) = inr 0 ∧
  r.2 = inr "out/geometry_index.json" ∧
  len (shards_of (log_of r)) = 0 ∧
  ceil_div (len one_record) (2 ^ 1080) = 1.
Proof. vm_compute. done. Qed.

(** C1. Keys are lost for huge chunk sizes: with one record and chunk size
    [2 ^ 1080] the run returns normally, yet the key of the input is in no
    shard file and not in the index, which is written empty. *)
Theorem huge_chunk_size_loses_keys :
  let r := run all_writable one_record "out" (2 ^ 1080) 0 in
  keys one_record = ["a"] ∧
  log_of r = [("out/doc.json", Indented [("a", 1)]);
              ("out/geometry_index.json", MinifiedIndex [])] ∧
  shards_of (log_of r) = [] ∧
  indexes_of (log_of r) = [[]] ∧
  r.2 = inr "out/geometry_index.json".
Proof. vm_compute. done. Qed.

(** C3. The last shard is missing for huge chunk sizes.  With one record
    and chunk size [2 ^ 1080] all the conditions hold ([T = 1], [C > 0],
    unique keys, the run returns), and the last shard should hold
    [T - C*(N-1) = 1] record, [N = ceil (T / C)] being [1]; yet the run has
    written no shard, so there is no last shard. *)
Theorem huge_chunk_size_has_no_last_shard :
  let r := run all_writable one_record "out" (2 ^ 1080) 0 in
  let N := ceil_div (len one_record) (2 ^ 1080) in
  NoDup (keys one_record) ∧ 1 <= len one_record ∧ 0 < 2 ^ 1080 ∧
  r.2 = inr "out/geometry_index.json" ∧
  N = 1 ∧ len one_record - 2 ^ 1080 * (N - 1) = 1 ∧
  last (shards_of (log_of r)) = None.
Proof.
  cbv zeta. split_and!.
  - by apply (bool_decide_unpack _).
  - vm_compute. discriminate.
  - vm_compute. reflexivity.
  - vm_compute. reflexivity.
  - vm_compute. reflexivity.
  - vm_compute. reflexivity.
  - vm_compute. reflexivity.
Qed.

(** ** A chunk size with too many digits *)

Lemma pow10_not_printable : ¬ printable (10 ^ 4300).
Proof.
  rewrite printable_iff. change int_max_str_digits with 4300.
  assert (0 < 10 ^ 4300) by (by apply Z.pow_pos_nonneg). lia.
Qed.

(** With chunk size [10 ^ 4300], a numeral of 4301 digits, the run stops at
    the message of line 36 and nothing is written; so does the whole
    function, after it has made the directory and printed its first line. *)
Lemma format_pow10 : format_ints [len one_record; 0; 10 ^ 4300] = inl ValueError.
Proof.
  destruct (format_ints_cases [len one_record; 0; 10 ^ 4300]) as [[_ Hall]|[Hf _]];
    [|done].
  exfalso. apply pow10_not_printable.
  by apply Forall_cons in Hall as [_ [_ [? _]%Forall_cons]%Forall_cons].
Qed.

Example chunk_size_too_long_to_print :
  run all_writable one_record "out" (10 ^ 4300) 0
  = (mkworld all_writable [], inl ValueError).
Proof.
  apply (run_format_error _ _ _ _ _ 0); [vm_compute; reflexivity|].
  exact format_pow10.
Qed.

(** ** The scenarios of the specification *)

Example num_files_examples :
  compute_num_files 5 2 = inr 3 ∧ compute_num_files 4 2 = inr 2 ∧
  compute_num_files 0 7 = inr 0 ∧ compute_num_files 5 (-2) = inr (-2) ∧
  compute_num_files 5 0 = inl ZeroDivisionError ∧
  compute_num_files 1 (2 ^ 1074) = inr 1 ∧ compute_num_files 1 (2 ^ 1080) = inr 0.
Proof. vm_compute. done. Qed.

Example five_records_run :
  run all_writable five_records "out" 2 3
  = (mkworld all_writable
       [("out/doc.json", Indented [("d", 4)]);
        ("out/geometry_0.json", Minified [("a", 1); ("b", 2)]);
        ("out/geometry_1.json", Minified [("c", 3); ("d", 4)]);
        ("out/geometry_2.json", Minified [("e", 5)]);
        ("out/geometry_index.json",
         MinifiedIndex [("a", 0); ("b", 0); ("c", 1); ("d", 1); ("e", 2)])],
     inr "out/geometry_index.json").
Proof. vm_compute. reflexivity. Qed.

Example failed_write_stops_the_run :
  run (λ path, negb (String.eqb path "out/geometry_1.json")) five_records "out" 2 3
  = (mkworld (λ path, negb (String.eqb path "out/geometry_1.json"))
       [("out/doc.json", Indented [("d", 4)]);
        ("out/geometry_0.json", Minified [("a", 1); ("b", 2)])],
     inl (OSError "out/geometry_1.json")).
Proof. vm_compute. reflexivity. Qed.

Example empty_index_bytes :
  render int_encoder (MinifiedIndex []) = "{}" ∧
  render int_encoder (MinifiedIndex [("a", 0); ("b", 0)])
  = "{" +:+ dquote +:+ "a" +:+ dquote +:+ ":0," +:+ dquote +:+ "b" +:+ dquote +:+ ":0}".
Proof. vm_compute. done. Qed.

Example json_load_keeps_last_value :
  dict_of_pairs [("a", 1); ("b", 2); ("a", 3)] = [("a", 3); ("b", 2)].
Proof. reflexivity. Qed.

(** * Further properties of the run *)

(** ** Putting the shards back together *)

(** What a returning run computed and wrote, below [2 ^ 1075]. *)
Lemma run_returns_in_range {V} can (data : dict V) dir C rng p :
  NoDup (keys data) → len_fits data → 0 < C < 2 ^ 1075 →
  (run can data dir C rng).2 = inr p →
  let K := ceil_div (len data) C in
  0 < len data ∧ 0 < K ∧ (K - 1) * C < len data <= K * C ∧
  compute_num_files (len data) C = inr K ∧
  ∃ k v, data !! randbelow rng (length data) = Some (k, v) ∧
    log_of (run can data dir C rng) = expected_log data dir C K (k, v).
Proof.
  intros Hnd Hfits [HC HCsmall] Hret K.
  destruct (run_returns can data dir C rng p Hnd HC Hret)
    as (N & k & v & Hcount & Hk & _ & Hpos & Hlog & _).
  assert (0 < len data) as HT.
  { destruct data; [by apply elem_of_nil in Hk|]. unfold len. cbn. lia. }
  destruct (compute_num_files_pos (len data) C ltac:(unfold len_fits in Hfits; lia) HC)
    as (N' & Hcount' & Hexact & _).
  rewrite Hcount in Hcount'. injection Hcount' as <-.
  rewrite (Hexact HCsmall) in *.
  destruct (ceil_div_spec (len data) C HT HC) as (HK0 & HK1 & HK2).
  split_and!; try done. by exists k, v.
Qed.

Lemma take_whole {A} (l : list A) K C :
  0 <= K → len l <= K * C → take (Z.to_nat (Z.of_nat (Z.to_nat K) * C)) l = l.
Proof.
  intros HK Hle. rewrite Z2Nat.id by done. apply take_ge.
  unfold len in Hle. set (P := K * C) in *. lia.
Qed.

(** X1. Below [2 ^ 1075], the shards of a returning run, put end to end in
    the order of their numbers, are the input itself: the same records in the
    same order. *)
Theorem shards_reassemble {V} can (data : dict V) dir C rng p :
  NoDup (keys data) → len_fits data → 0 < C < 2 ^ 1075 →
  (run can data dir C rng).2 = inr p →
  concat (shards_of (log_of (run can data dir C rng))) = data.
Proof.
  intros Hnd Hfits HC Hret.
  destruct (run_returns_in_range can data dir C rng p Hnd Hfits HC Hret)
    as (HT & HK & [HK1 HK2] & _ & k & v & _ & ->).
  rewrite shards_of_expected, range_of_nat, concat_chunks by lia.
  apply take_whole; lia.
Qed.

Lemma shards_reassemble_witness :
  concat (shards_of (log_of (run all_writable five_records "out" 2 0))) = five_records.
Proof.
  apply (shards_reassemble all_writable five_records "out" 2 0 "out/geometry_index.json").
  - exact five_records_unique.
  - unfold len_fits. vm_compute. reflexivity.
  - split; [lia|]. vm_compute. reflexivity.
  - vm_compute. reflexivity.
Defined.

(** ** The index, position by position *)

Lemma index_entries_by_position {V} (data : dict V) C (n : nat) :
  0 < C →
  concat (index_entries data C <$> seqZ 0 (Z.of_nat n))
  = imap (λ (j : nat) (kv : string * V), (kv.1, Z.of_nat j / C))
      (take (Z.to_nat (Z.of_nat n * C)) data).
Proof.
  intros HC. induction n as [|n IH]; [done|].
  rewrite seqZ_S, fmap_app, concat_app, IH. cbn [fmap list_fmap concat].
  rewrite app_nil_r, Z.add_0_l.
  replace (Z.of_nat (S n) * C) with ((Z.of_nat n + 1) * C) by lia.
  rewrite <- (take_positions data (Z.of_nat n * C) ((Z.of_nat n + 1) * C)) by nia.
  rewrite imap_app. f_equal.
  fold (chunk_of data C (Z.of_nat n)).
  unfold index_entries, keys. rewrite <- list_fmap_compose, <- imap_const.
  apply imap_ext. intros j [k v] Hj. cbn. f_equal.
  assert (Z.of_nat j < Z.of_nat (length (chunk_of data C (Z.of_nat n)))) as Hlt.
  { apply lookup_lt_Some in Hj. lia. }
  rewrite (length_chunk_of data C (Z.of_nat n) HC ltac:(lia)) in Hlt.
  rewrite length_take.
  assert (Z.of_nat n * C < len data) as Hin by lia.
  unfold len in Hin.
  replace (Z.of_nat (Z.to_nat (Z.of_nat n * C) `min` length data + j))
    with (Z.of_nat n * C + Z.of_nat j) by lia.
  apply (Z.div_unique _ _ _ (Z.of_nat j)); lia.
Qed.

(** X2. Below [2 ^ 1075], the index a returning run writes lists the keys of
    the input in the input's order, and gives the key at position [j] the
    shard number [j // C]. *)
Theorem index_by_position {V} can (data : dict V) dir C rng p :
  NoDup (keys data) → len_fits data → 0 < C < 2 ^ 1075 →
  (run can data dir C rng).2 = inr p →
  indexes_of (log_of (run can data dir C rng))
  = [imap (λ (j : nat) (kv : string * V), (kv.1, Z.of_nat j / C)) data].
Proof.
  intros Hnd Hfits HC Hret.
  destruct (run_returns_in_range can data dir C rng p Hnd Hfits HC Hret)
    as (HT & HK & [HK1 HK2] & _ & k & v & _ & ->).
  rewrite indexes_of_expected. f_equal. unfold index_upto.
  rewrite range_of_nat, index_entries_by_position by lia.
  by rewrite take_whole by lia.
Qed.

Lemma index_by_position_witness :
  indexes_of (log_of (run all_writable five_records "out" 2 0))
  = [imap (λ (j : nat) (kv : string * Z), (kv.1, Z.of_nat j / 2)) five_records].
Proof.
  apply (index_by_position all_writable five_records "out" 2 0 "out/geometry_index.json").
  - exact five_records_unique.
  - unfold len_fits. vm_compute. reflexivity.
  - split; [lia|]. vm_compute. reflexivity.
  - vm_compute. reflexivity.
Defined.

(** ** Finding a record through the index *)

Lemma chunk_of_keys_unique {V} (data : dict V) C i :
  NoDup (keys data) → NoDup (keys (chunk_of data C i)).
Proof.
  intros Hnd. unfold chunk_of, positions, keys. rewrite fmap_take, fmap_drop.
  eapply sublist_NoDup; [exact Hnd|].
  etrans; [apply sublist_take|apply sublist_drop].
Qed.

(** X3. Below [2 ^ 1075], after a returning run every key of the input can
    be found through the index: the index gives a shard number, the shard of
    that number exists, and it has for the key the value the input has. *)
Theorem lookup_through_index {V} can (data : dict V) dir C rng p (k : string) :
  NoDup (keys data) → len_fits data → 0 < C < 2 ^ 1075 →
  (run can data dir C rng).2 = inr p →
  k ∈ keys data →
  ∃ idx (i : nat) (d : dict V) (v : V),
    indexes_of (log_of (run can data dir C rng)) = [idx] ∧
    dict_get idx k = Some (Z.of_nat i) ∧
    shards_of (log_of (run can data dir C rng)) !! i = Some d ∧
    dict_get d k = Some v ∧ dict_get data k = Some v.
Proof.
  intros Hnd Hfits HC Hret Hk.
  destruct (keys_partition_in_range can data dir C rng p Hnd Hfits HC Hret)
    as (_ & idx & Hidx & _ & Hall).
  destruct (Hall k Hk) as (i & d & Hd & Hkd & Hget & _).
  destruct (run_returns_in_range can data dir C rng p Hnd Hfits HC Hret)
    as (_ & _ & _ & _ & k0 & v0 & _ & Hlog).
  rewrite Hlog, shards_of_expected in Hd.
  pose proof Hd as Hd'. apply lookup_chunks in Hd' as [_ ->].
  destruct (dict_get_is_Some _ _ Hkd) as [v Hv].
  exists idx, i, (chunk_of data C (Z.of_nat i)), v.
  rewrite Hlog in Hidx |- *. rewrite shards_of_expected.
  split_and!; [done..|].
  eapply chunk_of_get; [done|]. by apply dict_get_Some_elem.
Qed.

Lemma lookup_through_index_witness :
  ∃ idx (i : nat) (d : dict Z) (v : Z),
    indexes_of (log_of (run all_writable five_records "out" 2 0)) = [idx] ∧
    dict_get idx "d" = Some (Z.of_nat i) ∧
    shards_of (log_of (run all_writable five_records "out" 2 0)) !! i = Some d ∧
    dict_get d "d" = Some v ∧ dict_get five_records "d" = Some v.
Proof.
  apply (lookup_through_index all_writable five_records "out" 2 0
           "out/geometry_index.json").
  - exact five_records_unique.
  - unfold len_fits. vm_compute. reflexivity.
  - split; [lia|]. vm_compute. reflexivity.
  - vm_compute. reflexivity.
  - by apply (bool_decide_unpack _).
Defined.

(** ** A chunk size that covers the input *)

(** X4. When the chunk size is at least the number of records (and below
    [2 ^ 1075]), a returning run writes a single shard, which is the whole
    input, and the index sends every key to shard 0. *)
Theorem single_shard_when_chunk_covers {V} can (data : dict V) dir C rng p :
  NoDup (keys data) → len_fits data → len data <= C < 2 ^ 1075 →
  (run can data dir C rng).2 = inr p →
  shards_of (log_of (run can data dir C rng)) = [data] ∧
  indexes_of (log_of (run can data dir C rng)) = [(λ kv, (kv.1, 0)) <$> data].
Proof.
  intros Hnd Hfits [HTC HCsmall] Hret.
  assert (0 < C) as HC.
  { destruct (Z.lt_ge_cases 0 C) as [|Hle]; [done|exfalso].
    rewrite run_shape in Hret.
    destruct (compute_num_files (len data) C) as [err|N]; [done|].
    destruct (format_ints [len data; N; C]) as [err|[]]; [done|].
    assert (data = []) as ->.
    { pose proof (len_nonneg data). destruct data; [done|]. unfold len in *. cbn in *. lia. }
    done. }
  destruct (run_returns_in_range can data dir C rng p Hnd Hfits ltac:(done) Hret)
    as (HT & HK & [HK1 HK2] & _ & k & v & _ & Hlog).
  assert (ceil_div (len data) C = 1) as Hone by nia.
  assert (chunk_of data C 0 = data) as Hchunk.
  { unfold chunk_of, positions. rewrite Z.mul_0_l. change (Z.to_nat 0) with 0%nat.
    rewrite drop_0. apply take_ge. unfold len in *. lia. }
  rewrite Hlog, shards_of_expected, indexes_of_expected, Hone.
  unfold index_upto. change (range 1) with [0].
  cbn [fmap list_fmap concat]. rewrite app_nil_r. unfold index_entries.
  rewrite Hchunk. split; [done|]. unfold keys. by rewrite <- list_fmap_compose.
Qed.

Lemma single_shard_when_chunk_covers_witness :
  shards_of (log_of (run all_writable five_records "out" 100 0)) = [five_records] ∧
  indexes_of (log_of (run all_writable five_records "out" 100 0))
  = [(λ kv, (kv.1, 0)) <$> five_records].
Proof.
  apply (single_shard_when_chunk_covers all_writable five_records "out" 100 0
           "out/geometry_index.json").
  - exact five_records_unique.
  - unfold len_fits. vm_compute. reflexivity.
  - split; [vm_compute; discriminate|vm_compute; reflexivity].
  - vm_compute. reflexivity.
Defined.

(** ** No empty shard *)

(** X5. No run ever writes an empty shard file: for an input with unique
    keys and a length that fits, and [C > 0], every shard file written, also
    by a run that fails later, holds at least one and at most [C] records. *)
Theorem no_empty_shard {V} can (data : dict V) dir C rng path (d : dict V) :
  NoDup (keys data) → len_fits data → 0 < C →
  (path, Minified d) ∈ log_of (run can data dir C rng) →
  1 <= len d <= C.
Proof.
  intros Hnd Hfits HC Hin.
  destruct (run_cases can data dir C rng Hnd HC)
    as [(Hlog & _)|(N & k & v & n & Hcount & Hk & _ & _ & _ & Hw & _)].
  { rewrite Hlog in Hin. by apply elem_of_nil in Hin. }
  unfold log_of in Hin. rewrite Hw in Hin. cbn in Hin.
  apply elem_of_take in Hin as (m & Hm & _).
  apply list_elem_of_lookup_2, elem_of_expected_shard in Hm as (j & Hj & _ & ->).
  assert (0 < len data) as HT.
  { destruct data; [by apply elem_of_nil in Hk|]. unfold len. cbn. lia. }
  destruct (compute_num_files_pos (len data) C ltac:(unfold len_fits in Hfits; lia) HC)
    as (N' & Hcount' & _ & HN).
  rewrite Hcount in Hcount'. injection Hcount' as <-.
  destruct HN as [->| ->]; [lia|].
  destruct (ceil_div_spec (len data) C HT HC) as (HK0 & HK1 & HK2).
  assert (len (chunk_of data C j) = Z.max 0 (Z.min ((j + 1) * C) (len data) - j * C)) as ->.
  { apply length_chunk_of; lia. }
  assert (j * C <= (ceil_div (len data) C - 1) * C) by nia. lia.
Qed.

Lemma no_empty_shard_witness : 1 <= len [("e", 5)] <= 2.
Proof.
  apply (no_empty_shard all_writable five_records "out" 2 0 "out/geometry_2.json").
  - exact five_records_unique.
  - unfold len_fits. vm_compute. reflexivity.
  - lia.
  - apply (list_elem_of_lookup_2 _ 3%nat). vm_compute. reflexivity.
Defined.

(** ** The errors of a run *)

Lemma elem_of_py_slice {A} (l : list A) lo hi x : x ∈ py_slice l lo hi → x ∈ l.
Proof.
  unfold py_slice. intros (j & Hj & _)%elem_of_take.
  rewrite lookup_drop in Hj. by eapply list_elem_of_lookup_2.
Qed.

(** A comprehension over keys of the dictionary never raises. *)
Lemma dict_comprehension_total {V} (data : dict V) ks acc :
  Forall (λ k, k ∈ keys data) ks → ∃ d, dict_comprehension data ks acc = inr d.
Proof.
  intros Hks. revert acc. induction Hks as [|k ks Hk _ IH]; intros acc.
  - by eexists.
  - cbn. unfold dict_getitem. destruct (dict_get_is_Some data k Hk) as [v ->]. apply IH.
Qed.

Lemma chunk_keys_of_total {V} (data : dict V) C i acc :
  ∃ d, dict_comprehension data (chunk_keys_of data C i) acc = inr d.
Proof.
  apply dict_comprehension_total, Forall_forall. intros k. apply elem_of_py_slice.
Qed.

(** The loop raises nothing but the [OSError] of a shard file that cannot be
    written. *)
Lemma process_chunks_raises {V} (data : dict V) dir C file_nums index (w : world V) err :
  (process_chunks data dir C file_nums index w).2 = inl err →
  ∃ i, i ∈ file_nums ∧ err = OSError (os_path_join dir (shard_name i)) ∧
       can_write w (os_path_join dir (shard_name i)) = false.
Proof.
  revert index w. induction file_nums as [|i rest IH]; intros index w; [done|].
  cbn [process_chunks]. rewrite bind_run. unfold lift.
  destruct (chunk_keys_of_total data C i []) as [chunk ->].
  rewrite bind_dump.
  destruct (can_write w (os_path_join dir (shard_name i))) eqn:Hcan.
  - intros (j & Hj & -> & Hno)%IH. exists j. split_and!; [by right|done|done].
  - cbn. intros [= <-]. exists i. split_and!; [by left|done|done].
Qed.

Lemma shards_and_index_raises {V} (data : dict V) dir C N can err :
  (shards_and_index data dir C N (mkworld can [])).2 = inl err →
  ∃ path, err = OSError path ∧ can path = false.
Proof.
  unfold shards_and_index. rewrite bind_run.
  pose proof (process_chunks_raises data dir C (range N) [] (mkworld can [])) as Hloop.
  pose proof (process_chunks_can data dir C (range N) [] (mkworld can [])) as Hcan.
  destruct (process_chunks data dir C (range N) [] (mkworld can [])) as [[can' log] [e|idx]];
    cbn in Hcan, Hloop; subst can'.
  - intros [= <-]. destruct (Hloop e eq_refl) as (i & _ & -> & Hno). by eexists.
  - rewrite bind_dump. cbn [can_write].
    destruct (can (os_path_join dir index_name)) eqn:Hidx; [done|].
    cbn. intros [= <-]. by eexists.
Qed.

Lemma compute_num_files_raises T C err :
  compute_num_files T C = inl err →
  (C = 0 ∧ err = ZeroDivisionError) ∨ (C ≠ 0 ∧ err = OverflowError).
Proof.
  unfold compute_num_files, int_true_divide.
  destruct (Z.eqb_spec C 0) as [->|HC].
  { intros [= <-]. left. by split. }
  destruct (T =? 0); [intros [=]|]. cbv zeta.
  destruct (2 ^ 1024 <=? _); intros H; [injection H as <-|discriminate H].
  right. by split.
Qed.

(** X6. What a run raises has its cause in what it was given:
    [ZeroDivisionError] only for chunk size 0, [IndexError] only for the
    empty input, the [OSError] of a path only when that path cannot be opened
    for writing.  It never raises [KeyError], and never [OverflowError] for
    an input whose length fits. *)
Theorem exceptions_have_their_cause {V} can (data : dict V) dir C rng :
  let r := run can data dir C rng in
  (r.2 = inl ZeroDivisionError → C = 0) ∧
  (r.2 = inl IndexError → data = []) ∧
  (∀ path, r.2 = inl (OSError path) → can path = false) ∧
  (∀ key, r.2 ≠ inl (KeyError key)) ∧
  (len_fits data → r.2 ≠ inl OverflowError).
Proof.
  cbv zeta. rewrite run_shape.
  destruct (compute_num_files (len data) C) as [e|N] eqn:Hcount.
  { cbn [snd]. destruct (compute_num_files_raises _ _ _ Hcount) as [[-> ->]|[HC ->]].
    - by split_and!.
    - split_and!; try done. intros Hfits _.
      destruct (compute_num_files_total data C Hfits HC) as [N HN]. congruence. }
  destruct (format_ints [len data; N; C]) as [e|[]] eqn:Hf.
  { apply format_ints_raises in Hf as ->. cbn [snd]. by split_and!. }
  destruct (decide (data = [])) as [->|Hne].
  { cbn. by split_and!. }
  destruct (sample_exists data rng Hne) as (k & v & -> & -> & _).
  destruct (can (os_path_join dir doc_name)) eqn:Hdoc; cbn [snd].
  2: { split_and!; try done. by intros path [= <-]. }
  destruct (shards_and_index data dir C N (mkworld can [])).2 as [e|p] eqn:Hres.
  - apply shards_and_index_raises in Hres as (path & -> & Hno).
    split_and!; try done. by intros path' [= <-].
  - by split_and!.
Qed.

Lemma exceptions_have_their_cause_witness :
  let r := run all_writable five_records "out" 0 0 in
  (r.2 = inl ZeroDivisionError → 0 = 0) ∧
  (r.2 = inl IndexError → five_records = []) ∧
  (∀ path, r.2 = inl (OSError path) → all_writable path = false) ∧
  (∀ key, r.2 ≠ inl (KeyError key)) ∧
  (len_fits five_records → r.2 ≠ inl OverflowError).
Proof. apply (exceptions_have_their_cause all_writable five_records "out" 0 0). Defined.

(** ** Where a run writes *)

Lemma process_chunks_written {V} (data : dict V) dir C file_nums index can :
  Forall (λ w, can w.1 = true ∧
               ∃ i, i ∈ file_nums ∧ w.1 = os_path_join dir (shard_name i))
    (written (process_chunks data dir C file_nums index (mkworld can [])).1).
Proof.
  revert index. induction file_nums as [|i rest IH]; intros index; [by constructor|].
  cbn [process_chunks]. rewrite bind_run. unfold lift.
  destruct (chunk_keys_of_total data C i []) as [chunk ->].
  rewrite bind_dump. cbn [can_write written app].
  destruct (can (os_path_join dir (shard_name i))) eqn:Hcan; [|by constructor].
  rewrite <- (app_nil_r [_]), process_chunks_frame. cbn.
  constructor.
  - split; [done|]. exists i. split; [by left|done].
  - eapply Forall_impl; [apply IH|]. intros w [Hw (j & Hj & Hpath)].
    split; [done|]. exists j. split; [by right|done].
Qed.

Lemma shards_and_index_written {V} (data : dict V) dir C N can :
  Forall (λ w, can w.1 = true ∧
               (w.1 = os_path_join dir index_name ∨
                ∃ i, 0 <= i ∧ w.1 = os_path_join dir (shard_name i)))
    (written (shards_and_index data dir C N (mkworld can [])).1).
Proof.
  unfold shards_and_index. rewrite bind_run.
  pose proof (process_chunks_written data dir C (range N) [] can) as Hloop.
  pose proof (process_chunks_can data dir C (range N) [] (mkworld can [])) as Hcan.
  assert (Forall (λ w : string * document V, can w.1 = true ∧
            (w.1 = os_path_join dir index_name ∨
             ∃ i, 0 <= i ∧ w.1 = os_path_join dir (shard_name i)))
          (written (process_chunks data dir C (range N) [] (mkworld can [])).1))
    as Hshards.
  { eapply Forall_impl; [exact Hloop|]. intros w [Hw (i & Hi & Hpath)].
    split; [done|]. right. exists i. split; [|done].
    unfold range in Hi. apply elem_of_seqZ in Hi. lia. }
  clear Hloop.
  destruct (process_chunks data dir C (range N) [] (mkworld can [])) as [[can' log] [e|idx]];
    cbn [fst snd written can_write] in Hcan, Hshards |- *; subst can'; [done|].
  rewrite bind_dump. cbn [can_write written].
  destruct (can (os_path_join dir index_name)) eqn:Hidx; cbn [fst written]; [|done].
  apply Forall_app. split; [done|]. constructor; [|constructor].
  split; [done|by left].
Qed.


(** X7. Whatever the input and the chunk size, a run writes only to paths
    it could write to, and only under the output directory: to [doc.json],
    to [geometry_index.json], or to [geometry_i.json] for some [i >= 0]. *)
Theorem writes_stay_in_output_dir {V} can (data : dict V) dir C rng path doc :
  (path, doc) ∈ log_of (run can data dir C rng) →
  can path = true ∧
  (path = os_path_join dir doc_name ∨ path = os_path_join dir index_name ∨
   ∃ i, 0 <= i ∧ path = os_path_join dir (shard_name i)).
Proof.
  rewrite run_shape. unfold log_of.
  destruct (compute_num_files (len data) C) as [e|N]; [by intros ?%elem_of_nil|].
  destruct (format_ints [len data; N; C]) as [e|[]]; [by intros ?%elem_of_nil|].
  destruct (random_choice rng (keys data)) as [e|k]; [by intros ?%elem_of_nil|].
  destruct (dict_getitem data k) as [e|v]; [by intros ?%elem_of_nil|].
  destruct (can (os_path_join dir doc_name)) eqn:Hdoc; [|by intros ?%elem_of_nil].
  cbn [fst written]. intros [[= -> ->]|Hin]%elem_of_cons.
  { split; [done|by left]. }
  pose proof (shards_and_index_written data dir C N can) as Hall.
  rewrite Forall_forall in Hall. destruct (Hall _ Hin) as [Hw Hwhere].
  cbn [fst] in Hw, Hwhere. split; [done|]. right. exact Hwhere.
Qed.

Lemma writes_stay_in_output_dir_witness :
  all_writable "out/geometry_1.json" = true ∧
  ("out/geometry_1.json" = os_path_join "out" doc_name ∨
   "out/geometry_1.json" = os_path_join "out" index_name ∨
   ∃ i, 0 <= i ∧ "out/geometry_1.json" = os_path_join "out" (shard_name i)).
Proof.
  apply (writes_stay_in_output_dir all_writable five_records "out" 2 0
           "out/geometry_1.json" (Minified [("c", 3); ("d", 4)])).
  apply (list_elem_of_lookup_2 _ 2%nat). vm_compute. reflexivity.
Defined.

(** ** When a run returns, and what a failed write leaves *)



Lemma indexes_of_shard_writes {V} (data : dict V) dir C (l : list Z) :
  indexes_of (shard_write data dir C <$> l) = [].
Proof. induction l as [|i l IH]; [done|]. exact IH. Qed.

(** X9. When a write fails, the run stops there: for an input with unique
    keys and [C > 0], a run that raises the [OSError] of a path could not
    write that path, has written exactly the files that come before it in
    the order [doc.json], shards by number, index, and has written no index
    file. *)
Theorem failed_write_stops_the_run_at_once {V} can (data : dict V) dir C rng path :
  NoDup (keys data) → 0 < C →
  (run can data dir C rng).2 = inl (OSError path) →
  can path = false ∧
  indexes_of (log_of (run can data dir C rng)) = [] ∧
  ∃ N (n : nat), compute_num_files (len data) C = inr N ∧
    let all := os_path_join dir doc_name
               :: ((λ i, os_path_join dir (shard_name i)) <$> range N)
               ++ [os_path_join dir index_name] in
    (log_of (run can data dir C rng)).*1 = take n all ∧ all !! n = Some path.
Proof.
  intros Hnd HC Hret.
  destruct (run_cases can data dir C rng Hnd HC)
    as [(_ & _ & Hwhy)|(N & k & v & n & Hcount & _ & _ & _ & Hn & Hw & Hr)].
  { exfalso. destruct Hwhy as [[_ Hr]|[(err & Herr & Hr)|(N & _ & _ & Hr)]].
    - congruence.
    - rewrite Hret in Hr. injection Hr as <-.
      apply compute_num_files_raises in Herr as [[_ ?]|[_ ?]]; done.
    - congruence. }
  rewrite Hret in Hr. destruct Hr as (path' & doc & Hlook & [= <-] & Hno).
  split; [done|].
  assert (n < length (expected_log data dir C N (k, v)))%nat as Hlt
    by (by eapply lookup_lt_Some).
  unfold log_of. rewrite Hw. cbn [fst written]. split.
  - unfold expected_log in *. cbn [length] in Hlt. rewrite length_app in Hlt.
    cbn [length] in Hlt.
    rewrite app_comm_cons, take_app_le by (cbn [length]; lia).
    destruct n as [|n]; [done|]. cbn [take].
    change (indexes_of (?x :: ?l)) with (indexes_of l).
    by rewrite <- fmap_take, indexes_of_shard_writes.
  - exists N, n. split; [done|]. cbv zeta.
    rewrite fmap_take, expected_paths. split; [done|].
    rewrite <- (expected_paths data dir C N (k, v)), list_lookup_fmap, Hlook. done.
Qed.

Lemma failed_write_stops_the_run_at_once_witness :
  let can := λ path, negb (String.eqb path "out/geometry_1.json") in
  can "out/geometry_1.json" = false ∧
  indexes_of (log_of (run can five_records "out" 2 0)) = [] ∧
  ∃ N (n : nat), compute_num_files (len five_records) 2 = inr N ∧
    let all := os_path_join "out" doc_name
               :: ((λ i, os_path_join "out" (shard_name i)) <$> range N)
               ++ [os_path_join "out" index_name] in
    (log_of (run can five_records "out" 2 0)).*1 = take n all ∧
    all !! n = Some "out/geometry_1.json".
Proof.
  apply (failed_write_stops_the_run_at_once
           (λ path, negb (String.eqb path "out/geometry_1.json"))
           five_records "out" 2 0 "out/geometry_1.json").
  - exact five_records_unique.
  - lia.
  - vm_compute. reflexivity.
Defined.

(** ** The files on disk after a run *)

Lemma last_write_not_written {V} path (log : list (string * document V)) :
  path ∉ log.*1 → last_write path log = None.
Proof.
  induction log as [|w log IH] using rev_ind; [done|].
  rewrite fmap_app, last_write_snoc. intros Hnot.
  rewrite decide_False.
  - apply IH. intros Hin. apply Hnot, elem_of_app. by left.
  - intros Heq. apply Hnot, elem_of_app. right. cbn.
    apply list_elem_of_singleton. done.
Qed.

Lemma last_write_unique {V} path doc (log : list (string * document V)) :
  NoDup log.*1 → (path, doc) ∈ log → last_write path log = Some doc.
Proof.
  induction log as [|w log IH] using rev_ind; [by intros _ ?%elem_of_nil|].
  rewrite fmap_app, last_write_snoc. intros (Hnd & Hdisj & _)%NoDup_app Hin.
  apply elem_of_app in Hin as [Hin|Hin%list_elem_of_singleton].
  - rewrite decide_False; [by apply IH|].
    intros Heq. apply (Hdisj path).
    + apply list_elem_of_fmap. by exists (path, doc).
    + cbn. apply list_elem_of_singleton. done.
  - subst w. by rewrite decide_True.
Qed.

(** The paths of a log are pairwise distinct. *)
Lemma run_paths_NoDup {V} can (data : dict V) dir C rng :
  NoDup (keys data) → 0 < C → NoDup (log_of (run can data dir C rng)).*1.
Proof.
  intros Hnd HC.
  destruct (run_cases can data dir C rng Hnd HC)
    as [(Hlog & _)|(N & k & v & n & _ & _ & _ & _ & _ & Hw & _)].
  - rewrite Hlog. apply NoDup_nil_2.
  - unfold log_of. rewrite Hw. cbn [fst written].
    rewrite fmap_take, expected_paths.
    eapply sublist_NoDup; [apply expected_paths_NoDup|apply sublist_take].
Qed.

(** X10. No output file is overwritten within a run: for an input with
    unique keys and [C > 0], every file a run has written holds, when the
    run ends, the bytes of the document that was written to it, whatever was
    on disk before. *)
Theorem written_files_hold_their_document {V} (E : json_encoder V)
    (fs : gmap string string) can (data : dict V) dir C rng path doc :
  NoDup (keys data) → 0 < C →
  (path, doc) ∈ log_of (run can data dir C rng) →
  fs_apply E fs (log_of (run can data dir C rng)) !! path = Some (render E doc).
Proof.
  intros Hnd HC Hin. rewrite lookup_fs_apply.
  by rewrite (last_write_unique path doc) by (by try apply run_paths_NoDup).
Qed.

Lemma written_files_hold_their_document_witness :
  fs_apply int_encoder ∅ (log_of (run all_writable five_records "out" 2 0))
    !! "out/geometry_1.json"
  = Some (render int_encoder (Minified [("c", 3); ("d", 4)])).
Proof.
  apply (written_files_hold_their_document int_encoder ∅ all_writable five_records
           "out" 2 0).
  - exact five_records_unique.
  - lia.
  - apply (list_elem_of_lookup_2 _ 2%nat). vm_compute. reflexivity.
Defined.

(** X11. A run removes nothing: shard files with a number outside
    [0 .. N-1], [N] being the number of files the run computed, are left as
    they were on disk.  A run with fewer shards than an earlier one into the
    same directory leaves the higher-numbered shard files of the earlier run
    in place. *)
Theorem stale_shards_remain {V} (E : json_encoder V) (fs : gmap string string)
    can (data : dict V) dir C rng N j :
  NoDup (keys data) → 0 < C →
  compute_num_files (len data) C = inr N →
  ¬ (0 <= j < N) →
  fs_apply E fs (log_of (run can data dir C rng)) !! os_path_join dir (shard_name j)
  = fs !! os_path_join dir (shard_name j).
Proof.
  intros Hnd HC HN Hj. rewrite lookup_fs_apply, last_write_not_written; [done|].
  destruct (run_cases can data dir C rng Hnd HC)
    as [(Hlog & _)|(N' & k & v & n & Hcount & _ & _ & _ & _ & Hw & _)].
  { rewrite Hlog. apply not_elem_of_nil. }
  rewrite HN in Hcount. injection Hcount as <-.
  unfold log_of. rewrite Hw. cbn [fst written]. rewrite fmap_take, expected_paths.
  intros (m & Hm & _)%elem_of_take. apply list_elem_of_lookup_2 in Hm.
  apply elem_of_cons in Hm as [Hm|Hm]; [by eapply shard_path_not_doc|].
  apply elem_of_app in Hm as [Hm|Hm%list_elem_of_singleton];
    [|by eapply shard_path_not_index].
  apply list_elem_of_fmap in Hm as (i & Heq & Hi).
  apply shard_path_inj in Heq as ->.
  unfold range in Hi. apply elem_of_seqZ in Hi. lia.
Qed.

Lemma stale_shards_remain_witness :
  fs_apply int_encoder {[ "out/geometry_7.json" := "old" ]}
    (log_of (run all_writable five_records "out" 2 0))
    !! os_path_join "out" (shard_name 7)
  = ({[ "out/geometry_7.json" := "old" ]} : gmap string string)
    !! os_path_join "out" (shard_name 7).
Proof.
  apply (stale_shards_remain int_encoder {[ "out/geometry_7.json" := "old" ]}
           all_writable five_records "out" 2 0 3 7).
  - exact five_records_unique.
  - lia.
  - vm_compute. reflexivity.
  - lia.
Defined.

(** * The whole function *)

Example whole_function_on_five_records :
  split_json_file_full (fresh_system_with (TopObject five_records)) "in.json" "out" 2 3
  = ([MadeDirs "out";
      Printed "Loading JSON file: in.json";
      Printed "Splitting 5 objects into 3 files, with 2 objects per file";
      Wrote "out/doc.json" (Indented [("d", 4)]);
      Printed "Created documentation file out/doc.json with an example item";
      Wrote "out/geometry_0.json" (Minified [("a", 1); ("b", 2)]);
      Printed "Created minified file out/geometry_0.json with 2 objects";
      Wrote "out/geometry_1.json" (Minified [("c", 3); ("d", 4)]);
      Printed "Created minified file out/geometry_1.json with 2 objects";
      Wrote "out/geometry_2.json" (Minified [("e", 5)]);
      Printed "Created minified file out/geometry_2.json with 1 objects";
      Wrote "out/geometry_index.json"
        (MinifiedIndex [("a", 0); ("b", 0); ("c", 1); ("d", 1); ("e", 2)]);
      Printed "Created minified index file out/geometry_index.json with 5 entries"],
     inr "out/geometry_index.json").
Proof. vm_compute. reflexivity. Qed.

(** ** Events *)

Lemma bind_act {V A B} (m : act V A) (f : A → act V B) :
  m ≫= f = match m with
           | (tr, inl err) => (tr, inl err)
           | (tr, inr x) => (tr ++ (f x).1, (f x).2)
           end.
Proof. reflexivity. Qed.

Lemma bind_pure_inr {V A B} (x : A) (f : A → act V B) : pure_step (inr x) ≫= f = f x.
Proof. rewrite bind_act. cbn. by destruct (f x). Qed.

Lemma bind_pure_inl {V A B} (e : exn) (f : A → act V B) :
  pure_step (inl e) ≫= f = ([], inl (Raised e)).
Proof. reflexivity. Qed.

Lemma bind_mret {V A B} (x : A) (f : A → act V B) : mret x ≫= f = f x.
Proof. rewrite bind_act. cbn. by destruct (f x). Qed.

Lemma bind_raise {V A B} (err : error) (f : A → act V B) :
  raise err ≫= f = ([], inl err).
Proof. reflexivity. Qed.

Lemma bind_emit {V B} (e : event V) (f : () → act V B) :
  emit e ≫= f = (e :: (f ()).1, (f ()).2).
Proof. reflexivity. Qed.

Lemma bind_py_print {V B} (line : string) (f : () → act V B) :
  py_print line ≫= f = (Printed line :: (f ()).1, (f ()).2).
Proof. reflexivity. Qed.

Lemma bind_py_print_f {V B} (ints : list Z) (line : string) (f : () → act V B) :
  py_print_f ints line ≫= f
  = match format_ints ints with
    | inl err => ([], inl (Raised err))
    | inr _ => (Printed line :: (f ()).1, (f ()).2)
    end.
Proof. unfold py_print_f. by destruct (format_ints ints) as [err|[]]. Qed.

(** ** The lengths that the later messages show *)

Lemma length_py_slice {A} (l : list A) lo hi : len (py_slice l lo hi) <= len l.
Proof. unfold py_slice, len. rewrite length_take, length_drop. lia. Qed.

(** Once line 36 has shown [total_objects], the message of a shard can be
    printed: a chunk is no longer than the input. *)
Lemma format_chunk_keys {V} (data : dict V) C i :
  printable (len data) → format_ints [len (chunk_keys_of data C i)] = inr ().
Proof.
  intros Hp. apply format_ints_inr. constructor; [|done].
  apply (printable_mono _ (len data)); [|done].
  pose proof (length_py_slice (keys data) (i * C) (Z.min (i * C + C) (len data))) as Hle.
  rewrite len_keys in Hle. unfold chunk_keys_of.
  pose proof (len_nonneg (py_slice (keys data) (i * C) (Z.min (i * C + C) (len data)))).
  lia.
Qed.

Lemma index_update_keys (idx : dict Z) (ks : list string) (i : Z) :
  NoDup (keys idx) →
  NoDup (keys (foldl (λ idx key, dict_set idx key i) idx ks)) ∧
  ∀ k, k ∈ keys (foldl (λ idx key, dict_set idx key i) idx ks) → k ∈ keys idx ∨ k ∈ ks.
Proof.
  revert idx. induction ks as [|k0 ks IH]; intros idx Hnd; cbn [foldl].
  { split; [done|]. by left. }
  destruct (IH (dict_set idx k0 i) (dict_set_NoDup _ _ _ Hnd)) as [Hnd' Hin].
  split; [done|]. intros k Hk. destruct (Hin k Hk) as [Hk'|Hk'].
  - rewrite dict_set_keys in Hk'. case_decide; [by left|].
    apply elem_of_app in Hk' as [?|Hk0]; [by left|].
    apply list_elem_of_singleton in Hk0 as ->. right. by left.
  - right. by right.
Qed.

(** The index holds keys of the input only, each once. *)
Lemma process_chunks_index {V} (data : dict V) dir C file_nums index (w : world V) idx :
  (process_chunks data dir C file_nums index w).2 = inr idx →
  NoDup (keys index) → (∀ k, k ∈ keys index → k ∈ keys data) →
  NoDup (keys idx) ∧ ∀ k, k ∈ keys idx → k ∈ keys data.
Proof.
  revert index w. induction file_nums as [|i rest IH]; intros index w.
  { cbn. by intros [= <-]. }
  cbn [process_chunks]. rewrite bind_run. unfold lift.
  destruct (dict_comprehension data (chunk_keys_of data C i) []) as [err|chunk]; [done|].
  rewrite bind_dump.
  destruct (can_write w (os_path_join dir (shard_name i))); [|done].
  intros Hres Hnd Hsub.
  destruct (index_update_keys index (chunk_keys_of data C i) i Hnd) as [Hnd' Hin].
  apply (IH _ _ Hres Hnd'). intros k Hk.
  destruct (Hin k Hk) as [?|Hk']; [by apply Hsub|]. by eapply elem_of_py_slice.
Qed.

(** So the index is no longer than the input, and its message can be printed
    once line 36 has shown [total_objects]. *)
Lemma format_index_length {V} (data : dict V) dir C file_nums (w : world V) idx :
  (process_chunks data dir C file_nums [] w).2 = inr idx →
  printable (len data) → format_ints [len idx] = inr ().
Proof.
  intros Hres Hp. apply format_ints_inr. constructor; [|done].
  apply (printable_mono _ (len data)); [|done].
  destruct (process_chunks_index data dir C file_nums [] w idx Hres) as [Hnd Hsub].
  { apply NoDup_nil_2. }
  { by intros k ?%elem_of_nil. }
  pose proof (submseteq_length _ _ (NoDup_submseteq _ _ Hnd Hsub)) as Hle.
  unfold keys in Hle. rewrite !length_fmap in Hle. unfold len. lia.
Qed.

Lemma bind_dump_act {V B} (sys : system V) path doc (f : () → act V B) :
  dump sys path doc ≫= f
  = if can_open_w sys path then (Wrote path doc :: (f ()).1, (f ()).2)
    else ([], inl (Raised (OSError path))).
Proof. unfold dump. by destruct (can_open_w sys path). Qed.

Lemma writes_of_app {V} (t1 t2 : list (event V)) :
  writes_of (t1 ++ t2) = writes_of t1 ++ writes_of t2.
Proof. apply omap_app. Qed.

Lemma prints_of_app {V} (t1 t2 : list (event V)) :
  prints_of (t1 ++ t2) = prints_of t1 ++ prints_of t2.
Proof. apply omap_app. Qed.

Example whole_function_chunk_size_too_long :
  split_json_file_full (fresh_system_with (TopObject one_record)) "in.json" "out"
    (10 ^ 4300) 0
  = ([MadeDirs "out"; Printed "Loading JSON file: in.json"], inl (Raised ValueError)).
Proof.
  unfold split_json_file_full, ensure_dir. cbn [dir_exists can_makedirs fresh_system_with].
  rewrite bind_emit, bind_py_print. unfold load. cbn [load_file fresh_system_with].
  change (String.eqb "in.json" "in.json") with true. cbv iota.
  rewrite bind_mret. unfold top_len. rewrite bind_mret.
  assert (compute_num_files (len one_record) (10 ^ 4300) = inr 0) as ->
    by (vm_compute; reflexivity).
  by rewrite bind_pure_inr, bind_py_print_f, format_pow10.
Qed.

(** ** The whole function and its core *)

(** The loop with messages writes what the loop without them does, once
    line 36 has shown [total_objects]. *)
Lemma process_chunks_full_core {V} (sys : system V) (data : dict V) dir C
    file_nums index :
  printable (len data) →
  writes_of (process_chunks_full sys data dir C file_nums index).1
  = written (process_chunks data dir C file_nums index (mkworld (can_open_w sys) [])).1 ∧
  (process_chunks_full sys data dir C file_nums index).2
  = core_result (process_chunks data dir C file_nums index (mkworld (can_open_w sys) [])).2.
Proof.
  intros Hp.
  revert index. induction file_nums as [|i rest IH]; intros index; [done|].
  cbn [process_chunks_full process_chunks]. rewrite bind_run. unfold lift.
  destruct (dict_comprehension data (chunk_keys_of data C i) []) as [err|chunk].
  { by rewrite bind_pure_inl. }
  rewrite bind_pure_inr, bind_dump_act, bind_dump. cbn [can_write written app].
  destruct (can_open_w sys (os_path_join dir (shard_name i))); [|done].
  rewrite bind_py_print_f, (format_chunk_keys data C i Hp). cbn [fst snd].
  rewrite <- (app_nil_r [_]), process_chunks_frame. cbn [fst snd written].
  destruct (IH (foldl (λ idx key, dict_set idx key i) index (chunk_keys_of data C i)))
    as [Hw Hr].
  split; [|done]. change (writes_of (?e :: Printed ?l :: ?t)) with
    ((os_path_join dir (shard_name i), Minified chunk) :: writes_of t).
  by rewrite Hw.
Qed.

(** With the directory there or made, the setup adds nothing but its own
    event. *)
Lemma after_setup {V} (sys : system V) input dir C rng :
  dir_exists sys dir = true ∨ can_makedirs sys dir = true →
  writes_of (split_json_file_full sys input dir C rng).1
  = writes_of (load_and_split sys input dir C rng).1 ∧
  prints_of (split_json_file_full sys input dir C rng).1
  = prints_of (load_and_split sys input dir C rng).1 ∧
  (split_json_file_full sys input dir C rng).2 = (load_and_split sys input dir C rng).2.
Proof.
  intros Hdir.
  change (split_json_file_full sys input dir C rng)
    with (ensure_dir sys dir ≫= λ _, load_and_split sys input dir C rng).
  unfold ensure_dir. destruct (dir_exists sys dir) eqn:Hex; [by rewrite bind_mret|].
  destruct Hdir as [Hd|Hd]; [done|]. by rewrite Hd, bind_emit.
Qed.

Lemma load_and_split_core {V} (sys : system V) input dir C rng (data : dict V) :
  load_file sys input = Loaded (TopObject data) →
  writes_of (load_and_split sys input dir C rng).1
  = log_of (run (can_open_w sys) data dir C rng) ∧
  (load_and_split sys input dir C rng).2
  = core_result (run (can_open_w sys) data dir C rng).2.
Proof.
  intros Hload. rewrite run_shape. unfold load_and_split, log_of.
  rewrite bind_py_print. cbn [fst snd].
  change (writes_of (Printed ?l :: ?t)) with (writes_of t).
  unfold load. rewrite Hload, bind_mret. unfold top_len. rewrite bind_mret.
  destruct (compute_num_files (len data) C) as [err|N]; [by rewrite bind_pure_inl|].
  rewrite bind_pure_inr, bind_py_print_f.
  destruct (format_ints [len data; N; C]) as [err|[]] eqn:Hf; [done|].
  assert (printable (len data)) as Hp.
  { apply format_ints_printable in Hf. by apply Forall_cons in Hf as [? _]. }
  cbn [fst snd].
  change (writes_of (Printed ?l :: ?t)) with (writes_of t).
  unfold as_mapping. rewrite bind_mret.
  destruct (random_choice rng (keys data)) as [err|k]; [by rewrite bind_pure_inl|].
  rewrite bind_pure_inr.
  destruct (dict_getitem data k) as [err|v]; [by rewrite bind_pure_inl|].
  rewrite bind_pure_inr, bind_dump_act. cbn [dict_set].
  destruct (can_open_w sys (os_path_join dir doc_name)); [|done].
  rewrite bind_py_print. cbn [fst snd written].
  change (writes_of (?e :: Printed ?l :: ?t)) with
    ((os_path_join dir doc_name, Indented [(k, v)]) :: writes_of t).
  unfold shards_and_index. rewrite bind_run, bind_act.
  destruct (process_chunks_full_core sys data dir C (range N) [] Hp) as [Hw Hr].
  pose proof (process_chunks_can data dir C (range N) [] (mkworld (can_open_w sys) []))
    as Hcan.
  pose proof (format_index_length data dir C (range N) (mkworld (can_open_w sys) []))
    as Hidx.
  destruct (process_chunks_full sys data dir C (range N) []) as [tr [err|idx]],
    (process_chunks data dir C (range N) [] (mkworld (can_open_w sys) []))
      as [[can' log] [err'|idx']];
    cbn [fst snd written can_write core_result] in Hw, Hr, Hcan, Hidx;
    try done; subst can'.
  - injection Hr as ->. cbn [fst snd written]. by rewrite Hw.
  - injection Hr as ->. rewrite bind_dump_act, bind_dump. cbn [can_write written].
    destruct (can_open_w sys (os_path_join dir index_name)).
    + rewrite bind_py_print_f, (Hidx idx' eq_refl Hp).
      cbn [fst snd written mret act_ret io_ret].
      rewrite writes_of_app, Hw. done.
    + cbn [fst snd]. by rewrite app_nil_r, Hw.
Qed.



(** ** Inputs that are not an object *)

(** X13. Unless the input file holds a JSON object, the whole function
    writes no file at all and ends with an exception; the output directory,
    when it was missing and could be made, has been made all the same, before
    anything else. *)
Theorem no_file_without_an_object {V} (sys : system V) input dir C rng :
  (∀ d, load_file sys input ≠ Loaded (TopObject d)) →
  writes_of (split_json_file_full sys input dir C rng).1 = [] ∧
  (∃ err, (split_json_file_full sys input dir C rng).2 = inl err) ∧
  (dir_exists sys dir = false → can_makedirs sys dir = true →
   head (split_json_file_full sys input dir C rng).1 = Some (MadeDirs dir)).
Proof.
  intros Hnot. unfold split_json_file_full.
  set (rest := py_print (msg_loading input) ≫= _).
  assert (writes_of rest.1 = [] ∧ ∃ err, rest.2 = inl err) as [Hw [err Herr]].
  { subst rest. rewrite bind_py_print. cbn [fst snd].
    change (writes_of (Printed ?l :: ?t)) with (writes_of t).
    unfold load. destruct (load_file sys input) as [| |doc] eqn:Hload.
    - rewrite bind_raise. split; [done|by eexists].
    - rewrite bind_raise. split; [done|by eexists].
    - rewrite bind_mret.
      destruct doc as [d|n|n|]; [by destruct (Hnot d)|..]; unfold top_len.
      + rewrite bind_mret.
        destruct (compute_num_files (Z.of_nat n) C) as [e|N].
        * rewrite bind_pure_inl. split; [done|by eexists].
        * rewrite bind_pure_inr, bind_py_print_f.
          destruct (format_ints [Z.of_nat n; N; C]) as [e|[]]; [split; [done|by eexists]|].
          cbn [fst snd as_mapping].
          rewrite bind_raise. split; [done|by eexists].
      + rewrite bind_mret.
        destruct (compute_num_files (Z.of_nat n) C) as [e|N].
        * rewrite bind_pure_inl. split; [done|by eexists].
        * rewrite bind_pure_inr, bind_py_print_f.
          destruct (format_ints [Z.of_nat n; N; C]) as [e|[]]; [split; [done|by eexists]|].
          cbn [fst snd as_mapping].
          rewrite bind_raise. split; [done|by eexists].
      + rewrite bind_raise. split; [done|by eexists]. }
  unfold ensure_dir. destruct (dir_exists sys dir).
  - rewrite bind_mret. split_and!; [done|by eexists|done].
  - destruct (can_makedirs sys dir).
    + rewrite bind_emit. cbn [fst snd]. split_and!; [done|by eexists|done].
    + rewrite bind_raise. split_and!; [done|by eexists|done].
Qed.

Lemma no_file_without_an_object_witness :
  let sys := fresh_system_with (TopArray (V:=Z) 3) in
  writes_of (split_json_file_full sys "in.json" "out" 2 0).1 = [] ∧
  (∃ err, (split_json_file_full sys "in.json" "out" 2 0).2 = inl err) ∧
  (dir_exists sys "out" = false → can_makedirs sys "out" = true →
   head (split_json_file_full sys "in.json" "out" 2 0).1 = Some (MadeDirs "out")).
Proof.
  apply (no_file_without_an_object (fresh_system_with (TopArray (V:=Z) 3))
           "in.json" "out" 2 0).
  intros d. vm_compute. discriminate.
Defined.



(** ** The console *)

Lemma process_chunks_full_prints {V} (sys : system V) (data : dict V) dir C
    file_nums index idx :
  (process_chunks_full sys data dir C file_nums index).2 = inr idx →
  prints_of (process_chunks_full sys data dir C file_nums index).1
  = (λ i, msg_shard (os_path_join dir (shard_name i)) (len (chunk_keys_of data C i)))
    <$> file_nums.
Proof.
  revert index. induction file_nums as [|i rest IH]; intros index; [done|].
  cbn [process_chunks_full].
  destruct (dict_comprehension data (chunk_keys_of data C i) []) as [err|chunk].
  { by rewrite bind_pure_inl. }
  rewrite bind_pure_inr, bind_dump_act.
  destruct (can_open_w sys (os_path_join dir (shard_name i))); [|done].
  rewrite bind_py_print_f.
  destruct (format_ints [len (chunk_keys_of data C i)]) as [e|[]]; [done|].
  cbn [fst snd]. intros Hret.
  change (prints_of (Wrote ?p ?d :: Printed ?l :: ?t)) with (l :: prints_of t).
  cbn [fmap list_fmap]. f_equal. by apply IH.
Qed.

Lemma length_index_upto {V} (data : dict V) C K :
  0 < C → 0 <= K → len data <= K * C → len (index_upto data C K) = len data.
Proof.
  intros HC HK Hle. unfold index_upto.
  rewrite range_of_nat, index_entries_by_position, take_whole by lia.
  unfold len. by rewrite length_imap.
Qed.

(** X15. Below [2 ^ 1075], the console of a run of the whole function that
    returns shows, in this order: the loading message; the splitting message
    with [T], [ceil (T / C)] and [C]; the message for [doc.json]; one message
    per shard, by number, with the number of records that shard holds; and
    the index message with [T] entries. *)
Theorem console_of_a_returning_run {V} (sys : system V) input dir C rng
    (data : dict V) p :
  dir_exists sys dir = true ∨ can_makedirs sys dir = true →
  load_file sys input = Loaded (TopObject data) →
  NoDup (keys data) → len_fits data → 0 < C < 2 ^ 1075 →
  (split_json_file_full sys input dir C rng).2 = inr p →
  prints_of (split_json_file_full sys input dir C rng).1
  = [msg_loading input;
     msg_splitting (len data) (ceil_div (len data) C) C;
     msg_doc (os_path_join dir doc_name)]
    ++ ((λ i, msg_shard (os_path_join dir (shard_name i)) (len (chunk_of data C i)))
        <$> range (ceil_div (len data) C))
    ++ [msg_index (os_path_join dir index_name) (len data)].
Proof.
  intros Hdir Hload Hnd Hfits HC Hret.
  destruct (after_setup sys input dir C rng Hdir) as (_ & Hp & Hr).
  rewrite Hp. rewrite Hr in Hret. clear Hp Hr.
  destruct (load_and_split_core sys input dir C rng data Hload) as [_ Hres].
  rewrite Hret in Hres.
  destruct (run (can_open_w sys) data dir C rng).2 as [err|p'] eqn:Hcore; [done|].
  destruct (run_returns_in_range _ data dir C rng p' Hnd Hfits HC Hcore)
    as (HT & HK & [HK1 HK2] & Hcount & _).
  set (K := ceil_div (len data) C) in *.
  revert Hret. unfold load_and_split.
  rewrite bind_py_print. unfold load. rewrite Hload, bind_mret.
  unfold top_len. rewrite bind_mret, Hcount, bind_pure_inr, bind_py_print_f.
  destruct (format_ints [len data; K; C]) as [e|[]]; [done|].
  unfold as_mapping. rewrite bind_mret.
  destruct (random_choice rng (keys data)) as [err|k]; [by rewrite bind_pure_inl|].
  rewrite bind_pure_inr.
  destruct (dict_getitem data k) as [err|v]; [by rewrite bind_pure_inl|].
  rewrite bind_pure_inr, bind_dump_act.
  destruct (can_open_w sys (os_path_join dir doc_name)); [|done].
  rewrite bind_py_print, bind_act.
  pose proof (process_chunks_full_prints sys data dir C (range K) []) as Hprints.
  destruct (process_chunks_full_core sys data dir C (range K) []) as [_ Hloop].
  { apply printable_small. unfold len_fits in Hfits. lia. }
  destruct (process_chunks_spec data dir C Hnd (proj1 HC) (range K) []
              (mkworld (can_open_w sys) []) (range_nonneg K))
    as (n & _ & _ & Hidx).
  { cbn. apply chunks_disjoint; [done|apply HC]. }
  destruct (process_chunks_full sys data dir C (range K) []) as [tr [err|idx]];
    [done|].
  cbv beta iota. cbn [fst snd] in *.
  specialize (Hprints idx eq_refl).
  destruct (process_chunks data dir C (range K) [] (mkworld (can_open_w sys) [])).2
    as [err|idx']; [done|].
  injection Hloop as ->. destruct Hidx as [_ ->]. rewrite app_nil_l.
  fold (index_upto data C K).
  rewrite bind_dump_act.
  destruct (can_open_w sys (os_path_join dir index_name)); [|done].
  rewrite bind_py_print_f.
  destruct (format_ints [len (index_upto data C K)]) as [e|[]]; [done|].
  cbn [fst snd mret act_ret]. intros _.
  change (prints_of (Printed ?a :: Printed ?b :: Wrote ?q ?d :: Printed ?c :: ?t))
    with (a :: b :: c :: prints_of t).
  rewrite prints_of_app, Hprints. cbn [app]. do 3 f_equal. f_equal.
  - apply list_fmap_ext. intros j i Hi. f_equal.
    apply lookup_seqZ in Hi as [-> _]. rewrite chunk_keys_of_chunk by lia.
    by rewrite len_keys.
  - cbn. by rewrite length_index_upto by lia.
Qed.

Lemma console_of_a_returning_run_witness :
  let sys := system_with (TopObject five_records) in
  prints_of (split_json_file_full sys "in.json" "out" 2 0).1
  = [msg_loading "in.json";
     msg_splitting (len five_records) (ceil_div (len five_records) 2) 2;
     msg_doc (os_path_join "out" doc_name)]
    ++ ((λ i, msg_shard (os_path_join "out" (shard_name i))
                (len (chunk_of five_records 2 i)))
        <$> range (ceil_div (len five_records) 2))
    ++ [msg_index (os_path_join "out" index_name) (len five_records)].
Proof.
  apply (console_of_a_returning_run (system_with (TopObject five_records))
           "in.json" "out" 2 0 five_records "out/geometry_index.json").
  - left. reflexivity.
  - reflexivity.
  - exact five_records_unique.
  - unfold len_fits. vm_compute. reflexivity.
  - split; [lia|]. vm_compute. reflexivity.
  - vm_compute. reflexivity.
Defined.

(** ** The script with its defaults *)


